(** * Hotel amenity translation pipeline: translation, validation and retranslation

    A shallow embedding of the translator ([UpgradedHotelAmenitiesTranslator],
    file part_002) and of the validator ([EnhancedTranslationValidator],
    validate_translations.js).

    Conventions of the model:
    - JavaScript strings are [string]s of 8-bit characters, read as Latin-1
      code units; [\s], [trim] and [toLowerCase] are modelled on that range.
    - JavaScript numbers that hold scores are exact rationals [Q]; every
      threshold of the code (9.0, 8.5, 7.5, 6.0, the ladder values) is exactly
      representable, so the comparisons agree with the double comparisons.
    - The remote model is a script of outcomes, consumed one per API call, in
      call order (translation and validation calls alike).
    - The amenity array is a list; code that filters it keeps the positions of
      the selected objects, so writes through the filtered array reach the
      records of the original array, as the shared JS objects do. *)

From Stdlib Require Import Ascii String Bool ZArith QArith Lia Lqa.
From Stdlib Require Import Numbers.DecimalString.
From Stdlib Require Numbers.DecimalNat.
From stdpp Require Import base gmap strings list.

Open Scope bool_scope.

(* ------------------------------------------------------------------------ *)
(** ** Characters and string primitives *)

Definition code (c : ascii) : nat := nat_of_ascii c.

(** JS [\s] and the characters removed by [String.prototype.trim]
    (WhiteSpace and LineTerminator), restricted to Latin-1. *)
Definition is_ws (c : ascii) : bool :=
  let n := code c in
  (n =? 9) || (n =? 10) || (n =? 11) || (n =? 12) || (n =? 13)
  || (n =? 32) || (n =? 160).

(** The characters JS [.] does not match (LineTerminator, Latin-1 part). *)
Definition is_line_terminator (c : ascii) : bool :=
  let n := code c in (n =? 10) || (n =? 13).

Definition is_digit (c : ascii) : bool :=
  let n := code c in (48 <=? n) && (n <=? 57).

Definition newline : ascii := ascii_of_nat 10.
Definition quote_char : ascii := ascii_of_nat 34.
Definition dot_char : ascii := ascii_of_nat 46.

Fixpoint drop_ws (l : list ascii) : list ascii :=
  match l with
  | c :: l' => if is_ws c then drop_ws l' else l
  | [] => []
  end.

(** [s.trim()] *)
Definition trim_l (l : list ascii) : list ascii := rev (drop_ws (rev (drop_ws l))).

Definition trim (s : string) : string :=
  string_of_list_ascii (trim_l (list_ascii_of_string s)).

(** [s.split('\n')] *)
Fixpoint split_nl_aux (cur : list ascii) (l : list ascii) : list (list ascii) :=
  match l with
  | [] => [rev cur]
  | c :: l' =>
      if Ascii.eqb c newline then rev cur :: split_nl_aux [] l'
      else split_nl_aux (c :: cur) l'
  end.

Definition split_nl (s : string) : list string :=
  map string_of_list_ascii (split_nl_aux [] (list_ascii_of_string s)).

Fixpoint prefix_l (p l : list ascii) : bool :=
  match p, l with
  | [], _ => true
  | c :: p', d :: l' => Ascii.eqb c d && prefix_l p' l'
  | _ :: _, [] => false
  end.

Fixpoint includes_l (l p : list ascii) : bool :=
  prefix_l p l || match l with [] => false | _ :: l' => includes_l l' p end.

(** [s.includes(p)] *)
Definition includes (s p : string) : bool :=
  includes_l (list_ascii_of_string s) (list_ascii_of_string p).

(** [String.prototype.toLowerCase] on Latin-1: A-Z and the upper-case
    letters U+00C0..U+00DE except U+00D7. *)
Definition lower_char (c : ascii) : ascii :=
  let n := code c in
  if ((65 <=? n) && (n <=? 90)) || ((192 <=? n) && (n <=? 222) && negb (n =? 215))
  then ascii_of_nat (n + 32) else c.

Definition toLowerCase (s : string) : string :=
  string_of_list_ascii (map lower_char (list_ascii_of_string s)).

(** Decimal rendering of a non-negative integer inside a template literal. *)
Definition nat_to_string (n : nat) : string :=
  NilEmpty.string_of_uint (Nat.to_uint n).

(* ------------------------------------------------------------------------ *)
(** ** Backtracking regular-expression combinators

    A continuation-passing matcher: [star cls k l] is the greedy [cls*]
    followed by the rest of the pattern [k], retrying with fewer characters
    when [k] fails, as the JS backtracking engine does. *)

Fixpoint star {R} (cls : ascii -> bool) (k : list ascii -> option R)
  (l : list ascii) : option R :=
  match l with
  | c :: l' =>
      if cls c then
        match star cls k l' with Some r => Some r | None => k l end
      else k l
  | [] => k []
  end.

Definition plus {R} (cls : ascii -> bool) (k : list ascii -> option R)
  (l : list ascii) : option R :=
  match l with
  | c :: l' => if cls c then star cls k l' else None
  | [] => None
  end.

(** [(.+)$] without the [m] flag: the rest of the subject, non-empty and
    free of line terminators. *)
Definition dot_plus_end (l : list ascii) : option (list ascii) :=
  if negb (match l with [] => true | _ => false end) && forallb (fun c => negb (is_line_terminator c)) l
  then Some l else None.

(** [line.match(/^\d+\.\s*(.+)$/)], returning the capture group. *)
Definition match_numbered (line : list ascii) : option (list ascii) :=
  plus is_digit
    (fun l => match l with
              | c :: l' => if Ascii.eqb c dot_char then star is_ws dot_plus_end l'
                           else None
              | [] => None
              end) line.

(* ------------------------------------------------------------------------ *)
(** ** [parseTranslationResponse] (part_002, lines 266-298) *)

Definition ends_with_quote (l : list ascii) : bool :=
  match last l with Some c => Ascii.eqb c quote_char | None => false end.

(** [if (t.startsWith('"') && t.endsWith('"')) t = t.slice(1, -1)] *)
Definition strip_quotes (l : list ascii) : list ascii :=
  match l with
  | c :: rest =>
      if Ascii.eqb c quote_char && ends_with_quote l then removelast rest else l
  | [] => []
  end.

Definition missing_placeholder (k : nat) : string :=
  ("[MISSING TRANSLATION " ++ nat_to_string k ++ "]")%string.

Definition is_blank (s : string) : bool :=
  String.eqb (trim s) EmptyString.

(** One iteration of the loop body, for index [i] and [line = lines[i] || '']. *)
Definition parse_line (i : nat) (line : string) : string :=
  match match_numbered (list_ascii_of_string line) with
  | Some m =>
      string_of_list_ascii (strip_quotes (trim_l m))
  | None =>
      let t := trim line in
      let fallback := if String.eqb t EmptyString then missing_placeholder (S i) else t in
      string_of_list_ascii (strip_quotes (list_ascii_of_string fallback))
  end.

Definition parseTranslationResponse (aiResponse : string) (expectedCount : nat)
  : list string :=
  let lines := List.filter (fun line => negb (is_blank line)) (split_nl aiResponse) in
  map (fun i => parse_line i (nth i lines EmptyString)) (seq 0 expectedCount).

(* ------------------------------------------------------------------------ *)
(** ** [extractScoreFromAssessment] and [determineQualityLevel]
    (validate_translations.js, lines 391-413) *)

Definition extractScoreFromAssessment (assessment : string) : Q :=
  let lower := toLowerCase assessment in
  if includes lower "excellent" || includes lower "perfect" then 19 # 2
  else if includes lower "very good" || includes lower "good" then 8
  else if includes lower "acceptable" || includes lower "adequate" then 13 # 2
  else if includes lower "poor" || includes lower "bad" then 3
  else if includes lower "failed" || includes lower "error" then 0
  else 5.

Definition EXCELLENT_THRESHOLD : Q := 9.
Definition GOOD_THRESHOLD : Q := 15 # 2.
Definition ACCEPTABLE_THRESHOLD : Q := 6.

Definition determineQualityLevel (score : Q) : string :=
  if Qle_bool EXCELLENT_THRESHOLD score then "EXCELLENT"
  else if Qle_bool GOOD_THRESHOLD score then "GOOD"
  else if Qle_bool ACCEPTABLE_THRESHOLD score then "ACCEPTABLE"
  else "NEEDS_IMPROVEMENT".

Example parse_example_full :
  parseTranslationResponse
    ("1. Foo" ++ String newline ("2. " ++ String quote_char
       ("Bar" ++ String quote_char (String newline "3. Baz")))) 3
  = ["Foo"; "Bar"; "Baz"]%string.
Proof. vm_compute. reflexivity. Qed.

(* ------------------------------------------------------------------------ *)
(** ** Data model: amenity objects, the shared store and the remote model *)

(** An amenity object. [props] holds the other own properties read as
    [amenity[languageCode]] (the flat CSV-style columns). *)
Record Amenity := mkAmenity {
  am_id : Z;
  am_name : option string;
  am_en : option string;
  nameAll : option (gmap string string);
  props : gmap string string
}.

(** JS truthiness of a property that holds a string or is undefined. *)
Definition truthy (o : option string) : bool :=
  match o with Some s => negb (String.eqb s EmptyString) | None => false end.

(** [amenity.nameAll[languageCode]] (undefined when [nameAll] is). *)
Definition nameAll_at (a : Amenity) (lc : string) : option string :=
  match nameAll a with Some m => m !! lc | None => None end.

(** [amenity.name || amenity.en] *)
Definition englishText (a : Amenity) : option string :=
  if truthy (am_name a) then am_name a else am_en a.

(** [amenity.nameAll && amenity.nameAll[lc] ? amenity.nameAll[lc] : amenity[lc]] *)
Definition current_translation (a : Amenity) (lc : string) : option string :=
  if truthy (nameAll_at a lc) then nameAll_at a lc else props a !! lc.

(** [if (!amenity.nameAll) amenity.nameAll = {}; amenity.nameAll[lc] = v];
    assigning [undefined] ([None]) leaves a key that reads as undefined,
    modelled by removing it. *)
Definition set_nameAll (lc : string) (v : option string) (a : Amenity) : Amenity :=
  let m := match nameAll a with Some m => m | None => ∅ end in
  {| am_id := am_id a; am_name := am_name a; am_en := am_en a;
     nameAll := Some (match v with Some t => <[lc := t]> m | None => delete lc m end);
     props := props a |}.

(** An outcome of [openaiClient.chat.completions.create]: a rejected call,
    or a response whose [choices[0].message.content] is a string or not. *)
Inductive ApiOutcome :=
| ApiError (message : string)
| ApiResponse (content : option string).

(** The world: the script of the remote model, the prompts sent so far (in
    order; every call consumes quota), the heap of amenity objects (arrays of
    amenities are lists of references into it), and the source of the orders
    produced by [arr.sort(() => 0.5 - Math.random())], indexed by the number
    of shuffles already made. *)
Record World := mkWorld {
  w_script : list ApiOutcome;
  w_prompts : list string;
  w_store : list Amenity;
  w_shuffle : nat -> list nat -> list nat;
  w_nshuffle : nat
}.

(** Outcome of an async function: a value or a thrown error. *)
Inductive Result (A : Type) := Ok (a : A) | Throw (message : string).
Arguments Ok {A} a.
Arguments Throw {A} message.

Definition M (A : Type) : Type := World -> Result A * World.

Definition ret {A} (a : A) : M A := fun w => (Ok a, w).
Definition throw {A} (msg : string) : M A := fun w => (Throw msg, w).
Definition bind {A B} (m : M A) (k : A -> M B) : M B :=
  fun w => match m w with
           | (Ok a, w') => k a w'
           | (Throw e, w') => (Throw e, w')
           end.

Notation "'let*' x ':=' m 'in' k" := (bind m (fun x => k))
  (at level 200, x name, m at level 100, k at level 200).

Definition api_call (prompt : string) : M ApiOutcome :=
  fun w =>
    let prompts := w_prompts w ++ [prompt] in
    match w_script w with
    | o :: rest => (Ok o, mkWorld rest prompts (w_store w) (w_shuffle w) (w_nshuffle w))
    | [] => (Ok (ApiError "Connection error."),
             mkWorld [] prompts (w_store w) (w_shuffle w) (w_nshuffle w))
    end.

Definition modify (r : nat) (f : Amenity -> Amenity) : M unit :=
  fun w => (Ok tt, mkWorld (w_script w) (w_prompts w) (alter f r (w_store w))
                          (w_shuffle w) (w_nshuffle w)).

Definition shuffle (l : list nat) : M (list nat) :=
  fun w => (Ok (w_shuffle w (w_nshuffle w) l),
            mkWorld (w_script w) (w_prompts w) (w_store w) (w_shuffle w)
              (S (w_nshuffle w))).

(** [arr.filter(pred)] over an array of references; the predicate reads
    properties of each element, which throws on a slot holding no object. *)
Definition filter_refs (pred : Amenity -> bool) (refs : list nat) : M (list nat) :=
  fun w =>
    if forallb (fun r => match w_store w !! r with Some _ => true | None => false end) refs
    then (Ok (List.filter (fun r => match w_store w !! r with
                                    | Some a => pred a | None => false end) refs), w)
    else (Throw "TypeError: Cannot read properties of undefined", w).

Fixpoint mapM {A B} (f : A -> M B) (l : list A) : M (list B) :=
  match l with
  | [] => ret []
  | x :: l' => let* y := f x in let* ys := mapM f l' in ret (y :: ys)
  end.

(** Reading an object through a reference; an array slot that holds no
    object makes the property access throw. *)
Definition load_obj (r : nat) : M Amenity :=
  fun w => match w_store w !! r with
           | Some a => (Ok a, w)
           | None => (Throw "TypeError: Cannot read properties of undefined", w)
           end.

(* ------------------------------------------------------------------------ *)
(** ** Prompts (part_002, lines 121-145) *)

Definition nl : string := String newline EmptyString.

(** A value interpolated into a template literal. *)
Definition js_display (o : option string) : string :=
  match o with Some s => s | None => "undefined" end.

Fixpoint numbered_from (i : nat) (l : list string) : list string :=
  match l with
  | [] => []
  | p :: l' => (nat_to_string i ++ ". " ++ p)%string :: numbered_from (S i) l'
  end.

(** [arr.join('\n')] *)
Fixpoint join_nl (l : list string) : string :=
  match l with
  | [] => EmptyString
  | [x] => x
  | x :: l' => (x ++ nl ++ join_nl l')%string
  end.

Definition createEnhancedTranslationPrompt (englishPhrases : list (option string))
  (targetLanguageCode languageName : string) : string :=
  ("Translate these hotel amenities to " ++ languageName
   ++ ". Use natural, professional tone for hotel guests." ++ nl ++ nl
   ++ join_nl (numbered_from 1 (map js_display englishPhrases)) ++ nl ++ nl
   ++ "Format: 1. [translation] 2. [translation] etc. (without quotes)")%string.

Definition createRetranslationPrompt (englishPhrases : list (option string))
  (currentTranslations : list (option string)) (qualityIssues : list string)
  (targetLanguageCode languageName : string) : string :=
  ("Improve these " ++ languageName
   ++ " translations. Previous quality was low. Make them natural and professional."
   ++ nl ++ nl
   ++ "ORIGINAL: " ++ join_nl (numbered_from 1 (map js_display englishPhrases)) ++ nl
   ++ "CURRENT: " ++ join_nl (numbered_from 1 (map js_display currentTranslations))
   ++ nl ++ nl
   ++ "Provide improved translations: 1. [translation] 2. [translation] etc. (without quotes)")%string.

(** A prompt built by [createRetranslationPrompt]. *)
Definition is_retranslation_prompt (p : string) : bool :=
  prefix_l (list_ascii_of_string "Improve these ") (list_ascii_of_string p).

(* ------------------------------------------------------------------------ *)
(** ** [translateBatch] and [retranslateBatch] (part_002, lines 154-258) *)

Definition maxRetries : nat := 3.

Definition TRANSLATION_ERROR : string := "[TRANSLATION_ERROR]".

(** The retry loop shared by both functions: [remaining] attempts are left;
    on the last failed attempt the loop returns [fallback], and the return
    after the loop (unreachable) returns it as well. A response whose content
    is not a string makes [aiResponse.split] throw inside the [try]. The
    backoff delays are not observable here. *)
Fixpoint attempt_loop {A} (prompt : string) (parse : string -> list A)
  (fallback : list A) (remaining : nat) : M (list A) :=
  match remaining with
  | 0 => ret fallback
  | S r =>
      let* o := api_call prompt in
      match o with
      | ApiResponse (Some aiResponse) => ret (parse aiResponse)
      | _ => if r =? 0 then ret fallback
             else attempt_loop prompt parse fallback r
      end
  end.

Definition translateBatch (englishPhrases : list (option string))
  (targetLanguageCode languageName : string) : M (list string) :=
  let translationPrompt :=
    createEnhancedTranslationPrompt englishPhrases targetLanguageCode languageName in
  attempt_loop translationPrompt
    (fun aiResponse => parseTranslationResponse aiResponse (length englishPhrases))
    (map (fun _ => TRANSLATION_ERROR) englishPhrases) maxRetries.

(** On exhaustion the current translations (strings or [undefined]) are
    returned unchanged. *)
Definition retranslateBatch (englishPhrases : list (option string))
  (currentTranslations : list (option string)) (qualityIssues : list string)
  (targetLanguageCode languageName : string) : M (list (option string)) :=
  let retranslationPrompt :=
    createRetranslationPrompt englishPhrases currentTranslations qualityIssues
      targetLanguageCode languageName in
  attempt_loop retranslationPrompt
    (fun aiResponse => map Some (parseTranslationResponse aiResponse (length englishPhrases)))
    currentTranslations maxRetries.

(* ------------------------------------------------------------------------ *)
(** ** [findMissingTranslations] and [translateLanguage] (part_002, 323-410) *)

(** The predicate of [findMissingTranslations]. *)
Definition is_missing (lc : string) (a : Amenity) : bool :=
  if truthy (nameAll_at a lc) then
    match nameAll_at a lc with Some t => is_blank t | None => false end
  else
    negb (truthy (props a !! lc))
    || match props a !! lc with Some t => is_blank t | None => false end.

Definition findMissingTranslations (amenities : list nat) (lc : string) : M (list nat) :=
  filter_refs (is_missing lc) amenities.

Definition BATCH_SIZE : nat := 200.

(** [for (i = 0; i < l.length; i += n) l.slice(i, i + n)] *)
Fixpoint chunks_fuel (fuel n : nat) (l : list nat) : list (list nat) :=
  match fuel with
  | 0 => []
  | S f => match l with
           | [] => []
           | _ => firstn n l :: chunks_fuel f n (skipn n l)
           end
  end.

Definition chunks (n : nat) (l : list nat) : list (list nat) :=
  chunks_fuel (length l) n l.

(** [translation && translation !== '[TRANSLATION ERROR]'] *)
Definition usable (translation : option string) : bool :=
  truthy translation
  && negb (match translation with
           | Some t => String.eqb t "[TRANSLATION ERROR]"
           | None => false end).

(** The update loop over one batch: [j] is the position in the batch. *)
Fixpoint write_batch (lc : string) (batch : list nat) (j : nat)
  (translations : list string) (translatedCount : nat) : M nat :=
  match batch with
  | [] => ret translatedCount
  | r :: rest =>
      let translation := translations !! j in
      if usable translation then
        let* _ := modify r (set_nameAll lc translation) in
        write_batch lc rest (S j) translations (S translatedCount)
      else write_batch lc rest (S j) translations translatedCount
  end.

Record BatchResult := mkBatchResult { br_batch : nat; br_successful : nat }.

Fixpoint translate_batches (lc languageName : string) (batches : list (list nat))
  (translatedCount : nat) (translationResults : list BatchResult)
  : M (nat * list BatchResult) :=
  match batches with
  | [] => ret (translatedCount, translationResults)
  | batch :: rest =>
      let* englishPhrases := mapM (fun r => let* a := load_obj r in ret (englishText a)) batch in
      let* translations := translateBatch englishPhrases lc languageName in
      let* translatedCount' := write_batch lc batch 0 translations translatedCount in
      let successful := length (List.filter (fun t => usable (Some t)) translations) in
      translate_batches lc languageName rest translatedCount'
        (translationResults ++ [mkBatchResult (length batch) successful])
  end.

Record TranslateResult := mkTranslateResult {
  tr_languageCode : string;
  tr_languageName : string;
  tr_translatedCount : nat;
  tr_totalCount : nat;
  tr_status : string;
  tr_batchResults : list BatchResult
}.

Definition translateLanguage (amenities : list nat) (languageCode languageName : string)
  : M TranslateResult :=
  let* missingTranslations := findMissingTranslations amenities languageCode in
  match missingTranslations with
  | [] => ret (mkTranslateResult languageCode languageName 0 (length amenities)
                 "already_complete" [])
  | _ =>
      let* res := translate_batches languageCode languageName
                    (chunks BATCH_SIZE missingTranslations) 0 [] in
      ret (mkTranslateResult languageCode languageName (fst res)
             (length missingTranslations) "completed" (snd res))
  end.

(* ------------------------------------------------------------------------ *)
(** ** Validator: prompt, single validation and response parsing
    (validate_translations.js, lines 33-257) *)

Definition LANGUAGE_NAMES : gmap string string :=
  list_to_map [("ar", "Arabic"); ("de", "German"); ("es", "Spanish");
    ("es419", "Latin American Spanish"); ("fr", "French"); ("it", "Italian");
    ("ja", "Japanese"); ("ko", "Korean"); ("nl", "Dutch"); ("pl", "Polish");
    ("pt", "Portuguese"); ("ptBr", "Brazilian Portuguese"); ("ru", "Russian");
    ("sv", "Swedish"); ("th", "Thai"); ("vi", "Vietnamese");
    ("zhCn", "Simplified Chinese"); ("zhHk", "Traditional Chinese");
    ("gu", "Gujarati"); ("hi", "Hindi"); ("kn", "Kannada"); ("ml", "Malayalam");
    ("mr", "Marathi"); ("or", "Odia"); ("pa", "Punjabi"); ("ta", "Tamil");
    ("te", "Telugu"); ("bn", "Bengali"); ("fa", "Persian"); ("ms", "Malay");
    ("zhTw", "Taiwan Traditional Chinese")]%string.

(** [toUpperCase] on the ASCII letters (all language names are ASCII). *)
Definition upper_char (c : ascii) : ascii :=
  let n := code c in
  if (97 <=? n) && (n <=? 122) then ascii_of_nat (n - 32) else c.

Definition toUpperCase (s : string) : string :=
  string_of_list_ascii (map upper_char (list_ascii_of_string s)).

(** [LANGUAGE_NAMES[languageCode].toUpperCase()] throws when the code is not
    an own key: the lookup yields [undefined], or for inherited names such
    as [constructor] a value without a [toUpperCase] method. *)
Definition createEnhancedValidationPrompt (englishText translatedText : option string)
  (languageCode : string) : Result string :=
  match LANGUAGE_NAMES !! languageCode with
  | None => Throw "TypeError: Cannot read properties of undefined (reading 'toUpperCase')"
  | Some languageName =>
      let q := String quote_char EmptyString in
      Ok ("You are a professional translation validator specializing in hotel and hospitality terminology."
        ++ nl ++ nl ++ "Please validate the following translation for a hotel booking website:"
        ++ nl ++ nl ++ "ORIGINAL ENGLISH: " ++ q ++ js_display englishText ++ q
        ++ nl ++ "TRANSLATED " ++ toUpperCase languageName ++ ": " ++ q
        ++ js_display translatedText ++ q ++ nl ++ nl
        ++ "VALIDATION CRITERIA:" ++ nl
        ++ "1. Accuracy (30%): Does the translation convey the same meaning as the original?" ++ nl
        ++ "2. Cultural Appropriateness (25%): Is the translation suitable for hotel amenities and culturally appropriate?" ++ nl
        ++ "3. Natural Flow (25%): Does the translation sound natural and native in the target language?" ++ nl
        ++ "4. Technical Correctness (20%): Are grammar, spelling, and terminology correct?" ++ nl ++ nl
        ++ "Please provide your assessment in this exact format:" ++ nl
        ++ "Score: [1-10] (where 10 is perfect)" ++ nl
        ++ "Accuracy: [brief assessment]" ++ nl
        ++ "Cultural: [brief assessment]" ++ nl
        ++ "Natural: [brief assessment]" ++ nl
        ++ "Technical: [brief assessment]" ++ nl
        ++ "Issues: [list any specific issues found, or " ++ q ++ "None" ++ q ++ " if perfect]" ++ nl
        ++ "Recommendation: [specific improvement suggestion, or " ++ q ++ "Excellent" ++ q
        ++ " if perfect]" ++ nl ++ nl
        ++ "Guidelines:" ++ nl
        ++ "- Score 9-10: Excellent translation, minor issues at most" ++ nl
        ++ "- Score 7-8: Good translation with some room for improvement" ++ nl
        ++ "- Score 5-6: Acceptable but needs improvement" ++ nl
        ++ "- Score 1-4: Poor translation with significant issues")%string
  end.

(** Unanchored search: the first start position where [attempt] matches. *)
Fixpoint search {R} (attempt : list ascii -> option R) (l : list ascii) : option R :=
  match attempt l with
  | Some r => Some r
  | None => match l with [] => None | _ :: l' => search attempt l' end
  end.

Fixpoint digit_run (l : list ascii) : list ascii :=
  match l with
  | c :: l' => if is_digit c then c :: digit_run l' else []
  | [] => []
  end.

(** [(\d+)] at the end of a pattern: the greedy, non-empty digit run. *)
Definition digits_plus (l : list ascii) : option (list ascii) :=
  match digit_run l with [] => None | ds => Some ds end.

(** [(.+?)(?=\n|$)]: [acc] holds the characters consumed so far (reversed). *)
Fixpoint lazy_dot_rest (acc l : list ascii) : option (list ascii) :=
  match l with
  | [] => Some (rev acc)
  | c :: l' =>
      if Ascii.eqb c newline then Some (rev acc)
      else if is_line_terminator c then None
      else lazy_dot_rest (c :: acc) l'
  end.

Definition lazy_dot_plus (l : list ascii) : option (list ascii) :=
  match l with
  | c :: l' => if is_line_terminator c then None else lazy_dot_rest [c] l'
  | [] => None
  end.

(** [s.match(/<label>\s*<group>/)] with the capture group. *)
Definition match_label (label : string) (group : list ascii -> option (list ascii))
  (s : string) : option (list ascii) :=
  let p := list_ascii_of_string label in
  search (fun l => if prefix_l p l then star is_ws group (drop (length p) l) else None)
    (list_ascii_of_string s).

(** [parseInt] of a run of decimal digits, read exactly; JavaScript's
    [parseInt] returns a double, which agrees with this value up to [2^53]
    (above it the value is rounded, and a long enough run gives [Infinity]). *)
Definition parse_digits (ds : list ascii) : Z :=
  fold_left (fun acc c => (10 * acc + Z.of_nat (code c - 48))%Z) ds 0%Z.

Definition field_or (label : string) (default : string) (aiResponse : string) : string :=
  match match_label label lazy_dot_plus aiResponse with
  | Some m => string_of_list_ascii (trim_l m)
  | None => default
  end.

Record ValidationResult := mkValidationResult {
  vr_score : Z;
  vr_accuracy : string;
  vr_cultural : string;
  vr_natural : string;
  vr_technical : string;
  vr_issues : string;
  vr_recommendation : string
}.

Definition parseEnhancedValidationResponse (aiResponse : string) : ValidationResult :=
  mkValidationResult
    (match match_label "Score:" digits_plus aiResponse with
     | Some ds => parse_digits ds | None => 0%Z end)
    (field_or "Accuracy:" "No accuracy assessment" aiResponse)
    (field_or "Cultural:" "No cultural assessment" aiResponse)
    (field_or "Natural:" "No natural flow assessment" aiResponse)
    (field_or "Technical:" "No technical assessment" aiResponse)
    (field_or "Issues:" "No issues listed" aiResponse)
    (field_or "Recommendation:" "No recommendation provided" aiResponse).

(** The object returned by [validateSingleTranslation]: the seven fields and
    [rawResponse]. *)
Record SingleValidation := mkSingleValidation {
  sv_result : ValidationResult;
  sv_rawResponse : string
}.

Definition error_validation (message : string) : SingleValidation :=
  mkSingleValidation
    (mkValidationResult 0 "Validation failed" "Validation failed" "Validation failed"
       "Validation failed" message "Check API configuration") "".

(** The prompt is built before the [try]; inside it, a rejected call, or a
    content that is not a string ([aiResponse.match] throws), ends in the
    [catch] and its error result. *)
Definition validateSingleTranslation (englishText translatedText : option string)
  (languageCode : string) : M SingleValidation :=
  match createEnhancedValidationPrompt englishText translatedText languageCode with
  | Throw e => throw e
  | Ok validationPrompt =>
      let* o := api_call validationPrompt in
      match o with
      | ApiResponse (Some aiResponse) =>
          ret (mkSingleValidation (parseEnhancedValidationResponse aiResponse) aiResponse)
      | ApiResponse None =>
          ret (error_validation "Cannot read properties of null (reading 'match')")
      | ApiError message => ret (error_validation message)
      end
  end.

(* ------------------------------------------------------------------------ *)
(** ** [validateLanguage] (validate_translations.js, lines 267-384) *)

(** The filter of [validateLanguage]: a non-blank translation. *)
Definition has_translation (lc : string) (a : Amenity) : bool :=
  if truthy (nameAll_at a lc) then
    match nameAll_at a lc with Some t => negb (is_blank t) | None => false end
  else
    truthy (props a !! lc)
    && match props a !! lc with Some t => negb (is_blank t) | None => false end.

Record ValidationRecord := mkValidationRecord {
  vrec_id : Z;
  vrec_englishText : option string;
  vrec_translatedText : option string;
  vrec_score : Z;
  vrec_accuracy : string;
  vrec_cultural : string;
  vrec_natural : string;
  vrec_technical : string;
  vrec_issues : string;
  vrec_recommendation : string
}.

Record Totals := mkTotals {
  totalScore : Q;
  totalAccuracy : Q;
  totalCultural : Q;
  totalNatural : Q;
  totalTechnical : Q
}.

Definition zero_totals : Totals := mkTotals 0 0 0 0 0.

Record LanguageReport := mkLanguageReport {
  lr_languageCode : string;
  lr_languageName : string;
  lr_sampleSize : nat;
  lr_totalTranslations : nat;
  lr_averageScore : Q;
  lr_qualityLevel : string;
  lr_validationResults : list ValidationRecord;
  lr_accuracy : Q;
  lr_cultural : Q;
  lr_natural : Q;
  lr_technical : Q
}.

(** The loop over the sample; the delay between validations is not
    observable here. *)
Fixpoint validate_samples (languageCode : string) (sampleData : list nat)
  (validationResults : list ValidationRecord) (tot : Totals)
  : M (list ValidationRecord * Totals) :=
  match sampleData with
  | [] => ret (validationResults, tot)
  | r :: rest =>
      let* currentRow := load_obj r in
      let eng := englishText currentRow in
      let translatedText := current_translation currentRow languageCode in
      let* v := validateSingleTranslation eng translatedText languageCode in
      let res := sv_result v in
      let record := mkValidationRecord (am_id currentRow) eng translatedText
                      (vr_score res) (vr_accuracy res) (vr_cultural res)
                      (vr_natural res) (vr_technical res) (vr_issues res)
                      (vr_recommendation res) in
      let tot' := mkTotals
        (totalScore tot + inject_Z (vr_score res))%Q
        (totalAccuracy tot + extractScoreFromAssessment (vr_accuracy res))%Q
        (totalCultural tot + extractScoreFromAssessment (vr_cultural res))%Q
        (totalNatural tot + extractScoreFromAssessment (vr_natural res))%Q
        (totalTechnical tot + extractScoreFromAssessment (vr_technical res))%Q in
      validate_samples languageCode rest (validationResults ++ [record]) tot'
  end.

Definition DEFAULT_SAMPLE_SIZE : nat := 5.

Definition validateLanguage (amenities : list nat) (languageCode languageName : string)
  (sampleSize : nat) : M LanguageReport :=
  let* translatedAmenities := filter_refs (has_translation languageCode) amenities in
  match translatedAmenities with
  | [] => ret (mkLanguageReport languageCode languageName 0 0 0 "NO_TRANSLATIONS" []
                 0 0 0 0)
  | _ =>
      let* shuffledData := shuffle translatedAmenities in
      let sampleData := firstn (Nat.min sampleSize (length translatedAmenities)) shuffledData in
      let* p := validate_samples languageCode sampleData [] zero_totals in
      let n := inject_Z (Z.of_nat (length sampleData)) in
      let tot := snd p in
      let averageScore := (totalScore tot / n)%Q in
      ret (mkLanguageReport languageCode languageName (length sampleData)
             (length translatedAmenities) averageScore
             (determineQualityLevel averageScore) (fst p)
             (totalAccuracy tot / n)%Q (totalCultural tot / n)%Q
             (totalNatural tot / n)%Q (totalTechnical tot / n)%Q)
  end.

(* ------------------------------------------------------------------------ *)
(** ** [validateAndRetranslateLanguage] (part_002, lines 419-542) *)

Definition QUALITY_THRESHOLD : Q := 17 # 2.

(** The number comparison [x < y]. *)
Definition Qltb (x y : Q) : bool := negb (Qle_bool y x).

Definition TRANSLATION_FAILED : string := "[TRANSLATION_FAILED]".

(** The filter of [validateAndRetranslateLanguage]. *)
Definition has_valid_translation (lc : string) (a : Amenity) : bool :=
  if truthy (nameAll_at a lc) then
    match nameAll_at a lc with
    | Some t => negb (is_blank t) && negb (String.eqb t TRANSLATION_FAILED)
    | None => false end
  else
    truthy (props a !! lc)
    && match props a !! lc with
       | Some t => negb (is_blank t) && negb (String.eqb t TRANSLATION_FAILED)
       | None => false end.

(** [averageScore < QUALITY_THRESHOLD] *)
Definition needsRetranslation (averageScore : Q) : bool :=
  Qltb averageScore QUALITY_THRESHOLD.

Definition collect_issues (validationResults : list ValidationRecord) : list string :=
  List.filter (fun issue => negb (String.eqb issue "None")
                            && negb (String.eqb issue "No issues listed"))
    (map vrec_issues
       (List.filter (fun v => Qltb (inject_Z (vrec_score v)) QUALITY_THRESHOLD)
          validationResults)).

(** [translatedAmenities[i].nameAll[languageCode] = improvedTranslations[i]] *)
Fixpoint write_improved (lc : string) (refs : list nat) (i : nat)
  (improvedTranslations : list (option string)) : M unit :=
  match refs with
  | [] => ret tt
  | r :: rest =>
      let* _ := modify r (set_nameAll lc (mjoin (improvedTranslations !! i))) in
      write_improved lc rest (S i) improvedTranslations
  end.

Record LanguageOutcome := mkLanguageOutcome {
  lo_languageCode : string;
  lo_languageName : string;
  lo_averageScore : Q;
  lo_needsRetranslation : bool;
  lo_status : string;
  lo_originalScore : option Q;
  lo_finalScore : option Q;
  lo_validationResults : option (list ValidationRecord)
}.

(** The part after the first validation, given the translated references
    and the first report. *)
Definition retranslate_step (translatedAmenities : list nat)
  (languageCode languageName : string) (languageValidation : LanguageReport)
  : M LanguageOutcome :=
  let averageScore := lr_averageScore languageValidation in
  let validationResults := lr_validationResults languageValidation in
  if needsRetranslation averageScore then
    let qualityIssues := collect_issues validationResults in
    let* rows := mapM load_obj translatedAmenities in
    let englishPhrases := map englishText rows in
    let currentTranslations := map (fun a => current_translation a languageCode) rows in
    let* improvedTranslations := retranslateBatch englishPhrases currentTranslations
                                   qualityIssues languageCode languageName in
    let* _ := write_improved languageCode translatedAmenities 0 improvedTranslations in
    let* retranslationValidation :=
      validateLanguage translatedAmenities languageCode languageName 5 in
    let finalAverageScore := lr_averageScore retranslationValidation in
    if Qle_bool QUALITY_THRESHOLD finalAverageScore then
      ret (mkLanguageOutcome languageCode languageName finalAverageScore false
             "retranslated_success" (Some averageScore) (Some finalAverageScore)
             (Some validationResults))
    else
      ret (mkLanguageOutcome languageCode languageName finalAverageScore false
             "retranslation_failed_kept_original" (Some averageScore)
             (Some finalAverageScore) (Some validationResults))
  else
    ret (mkLanguageOutcome languageCode languageName averageScore false
           "quality_acceptable" None None (Some validationResults)).

Definition validateAndRetranslateLanguage (amenities : list nat)
  (languageCode languageName : string) : M LanguageOutcome :=
  let* translatedAmenities := filter_refs (has_valid_translation languageCode) amenities in
  match translatedAmenities with
  | [] => ret (mkLanguageOutcome languageCode languageName 0 false "no_translations"
                 None None None)
  | _ =>
      let* languageValidation :=
        validateLanguage translatedAmenities languageCode languageName 5 in
      retranslate_step translatedAmenities languageCode languageName languageValidation
  end.

(* ------------------------------------------------------------------------ *)
(** ** [translateAllLanguages] (part_002, lines 549-595) *)

(** [Object.keys(LANGUAGE_NAMES)]: the keys in insertion order (none of them
    is an array index). *)
Definition languageCodes : list string :=
  ["ar"; "de"; "es"; "es419"; "fr"; "it"; "ja"; "ko"; "nl"; "pl"; "pt"; "ptBr";
   "ru"; "sv"; "th"; "vi"; "zhCn"; "zhHk"; "gu"; "hi"; "kn"; "ml"; "mr"; "or";
   "pa"; "ta"; "te"; "bn"; "fa"; "ms"; "zhTw"]%string.

(** An element of the [results] array: a result of [translateLanguage], one
    of [validateAndRetranslateLanguage], or the object pushed by the
    [catch] (its [error] is the message of the thrown error). *)
Inductive ResultEntry :=
| RTranslation (t : TranslateResult)
| RValidation (o : LanguageOutcome)
| RError (languageCode languageName error : string).

(** The loop over the language codes; an error thrown by either call ends
    in the [catch], which pushes an error entry and goes on with the next
    language in the world the failed call left. The running totals and the
    delay only feed the console. *)
Fixpoint translate_languages (amenities : list nat) (codes : list string)
  (results : list ResultEntry) : M (list ResultEntry) :=
  match codes with
  | [] => ret results
  | languageCode :: rest =>
      let languageName := js_display (LANGUAGE_NAMES !! languageCode) in
      fun w =>
        match translateLanguage amenities languageCode languageName w with
        | (Throw e, w1) =>
            translate_languages amenities rest
              (results ++ [RError languageCode languageName e]) w1
        | (Ok translationResult, w1) =>
            match validateAndRetranslateLanguage amenities languageCode languageName w1 with
            | (Ok validationResult, w2) =>
                translate_languages amenities rest
                  (results ++ [RTranslation translationResult; RValidation validationResult]) w2
            | (Throw e, w2) =>
                translate_languages amenities rest
                  (results ++ [RTranslation translationResult;
                               RError languageCode languageName e]) w2
            end
        end
  end.

Definition translateAllLanguages (amenities : list nat) : M (list ResultEntry) :=
  translate_languages amenities languageCodes [].

(* ------------------------------------------------------------------------ *)
(** ** The totals of [generateSummary] (part_002, lines 641-680) *)

(** A JS number as far as these functions compute it: a rational, or one of
    the special values. *)
Inductive JSNum := Num (q : Q) | NaN | PosInf | NegInf.

(** [x + y] *)
Definition js_add (x y : JSNum) : JSNum :=
  match x, y with
  | Num a, Num b => Num (a + b)
  | NaN, _ | _, NaN => NaN
  | PosInf, NegInf | NegInf, PosInf => NaN
  | PosInf, _ | _, PosInf => PosInf
  | NegInf, _ | _, NegInf => NegInf
  end.

(** [x / y] for a divisor that is a number. *)
Definition js_div (x y : Q) : JSNum :=
  if Qeq_bool y 0 then
    (if Qeq_bool x 0 then NaN else if Qle_bool x 0 then NegInf else PosInf)
  else Num (x / y).

(** A property read on a result entry: [undefined] is [None]. *)
Definition entry_status (r : ResultEntry) : option string :=
  match r with
  | RTranslation t => Some (tr_status t)
  | RValidation o => Some (lo_status o)
  | RError _ _ _ => Some "error"%string
  end.

(** [result.translatedCount], a number or [undefined] (read as NaN by [+]). *)
Definition entry_translatedCount (r : ResultEntry) : JSNum :=
  match r with
  | RTranslation t => Num (inject_Z (Z.of_nat (tr_translatedCount t)))
  | _ => NaN
  end.

Definition entry_totalCount (r : ResultEntry) : JSNum :=
  match r with
  | RTranslation t => Num (inject_Z (Z.of_nat (tr_totalCount t)))
  | _ => NaN
  end.

(** [r.status && r.status !== 'quality_acceptable' && r.status !== 'retranslated'] *)
Definition is_translation_entry (r : ResultEntry) : bool :=
  match entry_status r with
  | Some s => negb (String.eqb s "") && negb (String.eqb s "quality_acceptable")
              && negb (String.eqb s "retranslated")
  | None => false
  end.

(** The printed totals [totalTranslated] and [totalProcessed]:
    [translationResults.reduce((sum, result) => sum + result.translatedCount, 0)]. *)
Definition summary_totals (results : list ResultEntry) : JSNum * JSNum :=
  let translationResults := List.filter is_translation_entry results in
  (fold_left (fun sum result => js_add sum (entry_translatedCount result))
     translationResults (Num 0),
   fold_left (fun sum result => js_add sum (entry_totalCount result))
     translationResults (Num 0)).

(* ------------------------------------------------------------------------ *)
(** ** The validator's log, [runValidation] and its report
    (validate_translations.js, lines 267-384 and 419-555) *)

(** [validateLanguage] as a method of the validator: a report for a language
    with translations is pushed on [this.validationResults]; the early
    return for a language without translations pushes nothing.
    ([this.languageScores] is written but never read.) *)
Definition validateLanguageV (validationResults : list LanguageReport) (amenities : list nat)
  (languageCode languageName : string) (sampleSize : nat)
  : M (LanguageReport * list LanguageReport) :=
  let* translatedAmenities := filter_refs (has_translation languageCode) amenities in
  match translatedAmenities with
  | [] => ret (mkLanguageReport languageCode languageName 0 0 0 "NO_TRANSLATIONS" []
                 0 0 0 0, validationResults)
  | _ =>
      let* shuffledData := shuffle translatedAmenities in
      let sampleData := firstn (Nat.min sampleSize (length translatedAmenities)) shuffledData in
      let* p := validate_samples languageCode sampleData [] zero_totals in
      let n := inject_Z (Z.of_nat (length sampleData)) in
      let tot := snd p in
      let averageScore := (totalScore tot / n)%Q in
      let languageResult :=
        mkLanguageReport languageCode languageName (length sampleData)
          (length translatedAmenities) averageScore
          (determineQualityLevel averageScore) (fst p)
          (totalAccuracy tot / n)%Q (totalCultural tot / n)%Q
          (totalNatural tot / n)%Q (totalTechnical tot / n)%Q in
      ret (languageResult, validationResults ++ [languageResult])
  end.

(** The loop of [runValidation] over the language codes. *)
Fixpoint validate_languages (amenities : list nat) (codes : list string)
  (validationResults : list LanguageReport) : M (list LanguageReport) :=
  match codes with
  | [] => ret validationResults
  | languageCode :: rest =>
      let* p := validateLanguageV validationResults amenities languageCode
                  (js_display (LANGUAGE_NAMES !! languageCode)) 5 in
      validate_languages amenities rest (snd p)
  end.

Record QualityDistribution := mkQualityDistribution {
  excellent : nat;
  good : nat;
  acceptable : nat;
  needsImprovement : nat
}.

(** The [switch] on the quality level. *)
Definition count_level (d : QualityDistribution) (qualityLevel : string) : QualityDistribution :=
  if String.eqb qualityLevel "EXCELLENT" then
    mkQualityDistribution (S (excellent d)) (good d) (acceptable d) (needsImprovement d)
  else if String.eqb qualityLevel "GOOD" then
    mkQualityDistribution (excellent d) (S (good d)) (acceptable d) (needsImprovement d)
  else if String.eqb qualityLevel "ACCEPTABLE" then
    mkQualityDistribution (excellent d) (good d) (S (acceptable d)) (needsImprovement d)
  else if String.eqb qualityLevel "NEEDS_IMPROVEMENT" then
    mkQualityDistribution (excellent d) (good d) (acceptable d) (S (needsImprovement d))
  else d.

(** The [forEach] over the log: the weighted score sum, the number of
    validations and the distribution. *)
Fixpoint report_loop (validationResults : list LanguageReport)
  (overallAverageScore : Q) (totalValidations : nat) (d : QualityDistribution)
  : Q * nat * QualityDistribution :=
  match validationResults with
  | [] => (overallAverageScore, totalValidations, d)
  | languageResult :: rest =>
      report_loop rest
        (overallAverageScore
         + lr_averageScore languageResult * inject_Z (Z.of_nat (lr_sampleSize languageResult)))%Q
        (totalValidations + lr_sampleSize languageResult)
        (count_level d (lr_qualityLevel languageResult))
  end.

(** The data [saveDetailedReport] writes (its [timestamp] apart). *)
Record ReportData := mkReportData {
  rd_overallScore : JSNum;
  rd_totalValidations : nat;
  rd_qualityDistribution : QualityDistribution;
  rd_languageResults : list LanguageReport
}.

Definition generateEnhancedValidationReport (validationResults : list LanguageReport)
  : ReportData :=
  let '(overallAverageScore, totalValidations, d) :=
    report_loop validationResults 0 0 (mkQualityDistribution 0 0 0 0) in
  mkReportData (js_div overallAverageScore (inject_Z (Z.of_nat totalValidations)))
    totalValidations d validationResults.

(** [runValidation] on the parsed array [amenities], with the validator's
    log [validationResults]: [None] when an error reached its [catch] (which
    only logs it), otherwise the data of the saved report. Reading the input
    file and writing the report file are not modelled. *)
Definition runValidation (amenities : list nat) (validationResults : list LanguageReport)
  : M (option ReportData) :=
  fun w =>
    match validate_languages amenities languageCodes validationResults w with
    | (Ok log, w') => (Ok (Some (generateEnhancedValidationReport log)), w')
    | (Throw _, w') => (Ok None, w')
    end.

(* ------------------------------------------------------------------------ *)
(** ** The CSV translator [HotelAmenitiesTranslator] (part_002, lines 748-1025)

    A second, simpler translator in the same file. Its data are the rows of
    a CSV file: objects whose properties all hold strings. Its settings come
    from config.js ([BATCH_SIZE] 10, the same [LANGUAGE_NAMES] pairs). *)

Module Basic.

(** A row object: its properties in the order [Object.keys] lists them
    (no column name is an array index). *)
Definition Row : Type := list (string * string).

(** [row[key]] *)
Definition row_get (row : Row) (key : string) : option string :=
  match find (fun p => String.eqb (fst p) key) row with
  | Some p => Some (snd p)
  | None => None
  end.

(** [row[key] = value]: an existing property keeps its place, a new one is
    added last. *)
Definition row_set (key value : string) (row : Row) : Row :=
  if existsb (fun p => String.eqb (fst p) key) row
  then map (fun p => if String.eqb (fst p) key then (key, value) else p) row
  else row ++ [(key, value)].

Definition BATCH_SIZE : nat := 10.

Definition LANGUAGE_NAMES : gmap string string :=
  list_to_map [("ar", "Arabic"); ("de", "German"); ("es", "Spanish");
    ("es419", "Latin American Spanish"); ("fr", "French"); ("it", "Italian");
    ("ja", "Japanese"); ("ko", "Korean"); ("nl", "Dutch"); ("pl", "Polish");
    ("pt", "Portuguese"); ("ptBr", "Brazilian Portuguese"); ("ru", "Russian");
    ("sv", "Swedish"); ("th", "Thai"); ("vi", "Vietnamese");
    ("zhCn", "Simplified Chinese"); ("zhHk", "Traditional Chinese");
    ("zhTw", "Taiwan Traditional Chinese"); ("gu", "Gujarati"); ("hi", "Hindi");
    ("kn", "Kannada"); ("ml", "Malayalam"); ("mr", "Marathi"); ("or", "Odia");
    ("pa", "Punjabi"); ("ta", "Tamil"); ("te", "Telugu"); ("bn", "Bengali");
    ("fa", "Persian"); ("ms", "Malay")]%string.

Definition quote : string := String quote_char EmptyString.

Definition createTranslationPrompt (englishPhrases : list (option string))
  (targetLanguage languageName : string) : string :=
  ("You are a professional translator specializing in hotel and hospitality terminology. "
   ++ nl
   ++ "Translate the following hotel room amenities from English to " ++ languageName
   ++ " (" ++ targetLanguage ++ ")." ++ nl
   ++ nl
   ++ "IMPORTANT GUIDELINES:" ++ nl
   ++ "- Use natural, context-appropriate translations for a hotel booking website" ++ nl
   ++ "- Maintain the same meaning and tone as the original" ++ nl
   ++ "- Use proper terminology for hotel amenities" ++ nl
   ++ "- Keep translations concise and user-friendly" ++ nl
   ++ "- For items with " ++ quote ++ "(surcharge)" ++ quote ++ " or " ++ quote
   ++ "(on request)" ++ quote ++ ", maintain that context" ++ nl
   ++ "- Return ONLY the translated list, one translation per line, in the same order" ++ nl
   ++ nl
   ++ "English phrases:" ++ nl
   ++ join_nl (numbered_from 1 (map js_display englishPhrases)) ++ nl
   ++ nl
   ++ languageName ++ " translations:" ++ nl)%string.

Fixpoint drop_digits (l : list ascii) : list ascii :=
  match l with
  | c :: l' => if is_digit c then drop_digits l' else l
  | [] => []
  end.

(** [cleanLine.replace(/^\d+\.?\s*/, '')] on a line that starts with a
    digit: every part of the pattern after [\d+] is optional, so the greedy
    first choice of each quantifier is the match. *)
Definition strip_number (l : list ascii) : list ascii :=
  let l1 := drop_digits l in
  let l2 := match l1 with
            | c :: r => if Ascii.eqb c dot_char then r else l1
            | [] => []
            end in
  drop_ws l2.

(** The body of the clean-up loop for one line. *)
Definition clean_line (line : string) : string :=
  let l := list_ascii_of_string line in
  let cleanLine :=
    match l with
    | c :: _ => if is_digit c then string_of_list_ascii (strip_number l) else line
    | [] => line
    end in
  cleanLine.

Definition clean_translations (content : string) : list string :=
  let lines := List.filter (fun line => negb (String.eqb line EmptyString))
                 (map trim (split_nl (trim content))) in
  List.filter (fun cleanLine => negb (String.eqb cleanLine EmptyString))
    (map clean_line lines).

(** Truncating to, or padding with empty strings up to, [n] entries. *)
Definition fit (translations : list string) (n : nat) : list string :=
  if n <=? length translations then firstn n translations
  else translations ++ List.repeat EmptyString (n - length translations).

(** One call, no retry; every failure (a rejected call, a content that is
    not a string) is caught and gives one empty string per phrase. *)
Definition translateBatch (englishPhrases : list (option string))
  (targetLanguage languageName : string) : M (list string) :=
  match englishPhrases with
  | [] => ret []
  | _ =>
      let prompt := createTranslationPrompt englishPhrases targetLanguage languageName in
      let* o := api_call prompt in
      match o with
      | ApiResponse (Some content) =>
          ret (fit (clean_translations content) (length englishPhrases))
      | _ => ret (List.repeat EmptyString (length englishPhrases))
      end
  end.

(** [!row[language] || row[language].trim() === ''] *)
Definition is_missing (language : string) (row : Row) : bool :=
  negb (truthy (row_get row language))
  || match row_get row language with
     | Some s => String.eqb (trim s) EmptyString
     | None => false
     end.

Definition findMissingTranslations (data : list Row) (language : string) : list Row :=
  List.filter (is_missing language) data.

(** [for (i = 0; i < l.length; i += n) l.slice(i, i + n)] *)
Fixpoint batches_fuel {A} (fuel n : nat) (l : list A) : list (list A) :=
  match fuel with
  | 0 => []
  | S f => match l with
           | [] => []
           | _ => firstn n l :: batches_fuel f n (skipn n l)
           end
  end.

Definition batches {A} (n : nat) (l : list A) : list (list A) :=
  batches_fuel (length l) n l.

(** The batch loop: [allTranslations.push(...translations)]; the logging
    and the delay are not observable here. *)
Fixpoint translate_batches (language languageName : string)
  (bs : list (list (option string))) (allTranslations : list string) : M (list string) :=
  match bs with
  | [] => ret allTranslations
  | batch :: rest =>
      let* translations := translateBatch batch language languageName in
      translate_batches language languageName rest (allTranslations ++ translations)
  end.

(** The update loop: the [translationIndex]-th missing row receives
    [allTranslations[translationIndex] || '']. *)
Fixpoint update_rows (language : string) (data : list Row) (allTranslations : list string)
  (translationIndex : nat) : list Row :=
  match data with
  | [] => []
  | row :: rest =>
      if is_missing language row then
        let t := match allTranslations !! translationIndex with
                 | Some t => if String.eqb t EmptyString then EmptyString else t
                 | None => EmptyString
                 end in
        row_set language t row
          :: update_rows language rest allTranslations (S translationIndex)
      else row :: update_rows language rest allTranslations translationIndex
  end.

Record LanguageResult := mkLanguageResult {
  res_language : string;
  res_translated : nat;
  res_total : nat
}.

(** The rows are mutated in place; the updated array is returned beside the
    result. *)
Definition translateLanguage (data : list Row) (language : string)
  : M (list Row * LanguageResult) :=
  let languageName :=
    if truthy (LANGUAGE_NAMES !! language) then js_display (LANGUAGE_NAMES !! language)
    else language in
  let missingRows := findMissingTranslations data language in
  let missingCount := length missingRows in
  if missingCount =? 0 then ret (data, mkLanguageResult language 0 0)
  else
    let englishTexts := map (fun row => row_get row "en") missingRows in
    let* allTranslations :=
      translate_batches language languageName (batches BATCH_SIZE englishTexts) [] in
    let data' := update_rows language data allTranslations 0 in
    let successfulTranslations :=
      length (List.filter (fun t => negb (String.eqb (trim t) EmptyString)) allTranslations) in
    ret (data', mkLanguageResult language successfulTranslations missingCount).

(** [Object.keys(data[0] || {}).filter(col => !['id', 'en'].includes(col))] *)
Definition identifyLanguages (data : list Row) : list string :=
  match data with
  | [] => []
  | row :: _ => List.filter (fun col => negb (existsb (String.eqb col) ["id"; "en"]%string))
                  (map fst row)
  end.

Fixpoint translate_languages (data : list Row) (languages : list string)
  (results : list LanguageResult) : M (list Row * list LanguageResult) :=
  match languages with
  | [] => ret (data, results)
  | language :: rest =>
      let* p := translateLanguage data language in
      translate_languages (fst p) rest (results ++ [snd p])
  end.

Definition translateAllLanguages (data : list Row) : M (list Row * list LanguageResult) :=
  translate_languages data (identifyLanguages data) [].

End Basic.

(* ======================================================================== *)
(** * Fixtures and auxiliary predicates *)

Definition carriage_return : ascii := ascii_of_nat 13.

Definition identity_shuffle : nat -> list nat -> list nat := fun _ l => l.

Definition amenity_en (id : Z) (en : string) : Amenity :=
  mkAmenity id None (Some en) None ∅.

Definition amenity_with (id : Z) (en lc t : string) : Amenity :=
  mkAmenity id None (Some en) (Some (<[lc := t]> ∅)) ∅.

(** Two records without a Spanish translation; every call to the remote
    model fails (four failures are scripted, to count the attempts). *)
Definition failing_world : World :=
  mkWorld [ApiError "timeout"; ApiError "timeout"; ApiError "timeout"; ApiError "timeout"]
    [] [amenity_en 1 "Free WiFi"; amenity_en 2 "Swimming pool"] identity_shuffle 0.

Definition validation_response (score : string) : string :=
  ("Score: " ++ score ++ nl ++ "Accuracy: Good" ++ nl ++ "Cultural: Good" ++ nl
   ++ "Natural: Good" ++ nl ++ "Technical: Good" ++ nl ++ "Issues: None" ++ nl
   ++ "Recommendation: Excellent")%string.

(** One record whose Spanish slot holds the failure sentinel of
    [translateBatch]. *)
Definition sentinel_world : World :=
  mkWorld [ApiResponse (Some (validation_response "2")); ApiResponse (Some (validation_response "2"))]
    [] [amenity_with 1 "Free WiFi" "es" TRANSLATION_ERROR] identity_shuffle 0.

Definition sum_scores (l : list ValidationRecord) : Q :=
  fold_right (fun v acc => inject_Z (vrec_score v) + acc)%Q 0%Q l.

Definition frame {A} (P : World -> World -> Prop) (m : M A) : Prop :=
  forall w res w', m w = (res, w') -> P w w'.

Abbreviation keeps_at r m := (frame (fun w w' => w_store w' !! r = w_store w !! r) m).

(** A record with a non-blank current translation is not selected. *)
Definition nonblank (o : option string) : Prop :=
  match o with Some t => is_blank t = false | None => False end.

Abbreviation grows m :=
  (frame (fun w w' => exists ext, w_prompts w' = w_prompts w ++ ext) m).

(** The value of a successful run, [d] otherwise. *)
Definition ok_or {A} (d : A) (r : Result A) : A :=
  match r with Ok a => a | Throw _ => d end.

Definition empty_report : LanguageReport :=
  mkLanguageReport "" "" 0 0 0 "" [] 0 0 0 0.

Definition empty_outcome : LanguageOutcome :=
  mkLanguageOutcome "" "" 0 false "" None None None.

(** One record already translated into Spanish and one not; the remote
    model answers the translation prompt. *)
Definition partial_world : World :=
  mkWorld [ApiResponse (Some "1. Piscina")] []
    [amenity_with 1 "Free WiFi" "es" "WiFi gratis"; amenity_en 2 "Swimming pool"]
    identity_shuffle 0.

(** Five translated records, validated with the scores 9, 8, 10, 7, 9. *)
Definition five_world : World :=
  mkWorld (map (fun s => ApiResponse (Some (validation_response s)))
             ["9"; "8"; "10"; "7"; "9"]%string) []
    [amenity_with 1 "Free WiFi" "es" "WiFi gratis"; amenity_with 2 "Swimming pool" "es" "Piscina";
     amenity_with 3 "Gym" "es" "Gimnasio"; amenity_with 4 "Spa" "es" "Spa";
     amenity_with 5 "Parking" "es" "Aparcamiento"]
    identity_shuffle 0.

Definition five_report : LanguageReport :=
  ok_or empty_report (fst (validateLanguage [0; 1; 2; 3; 4] "es" "Spanish" 5 five_world)).

(** Two translated records, validated with the scores 8 and 9 (average 8.5). *)
Definition boundary_world : World :=
  mkWorld [ApiResponse (Some (validation_response "8")); ApiResponse (Some (validation_response "9"))]
    [] [amenity_with 1 "Free WiFi" "es" "WiFi gratis"; amenity_with 2 "Swimming pool" "es" "Piscina"]
    identity_shuffle 0.

Definition boundary_report : LanguageReport :=
  ok_or empty_report (fst (validateLanguage [0; 1] "es" "Spanish" 5 boundary_world)).

(** One record validated at 5, retranslated to "Nuevo", then validated at 6. *)
Definition low_world : World :=
  mkWorld [ApiResponse (Some (validation_response "5")); ApiResponse (Some "1. Nuevo");
           ApiResponse (Some (validation_response "6"))]
    [] [amenity_with 1 "Free WiFi" "es" "Viejo"] identity_shuffle 0.

(** The report of the first validation of [low_world]. *)
Definition low_report : LanguageReport :=
  ok_or empty_report (fst (validateLanguage [0] "es" "Spanish" 5 low_world)).

Definition low_outcome : LanguageOutcome :=
  ok_or empty_outcome (fst (validateAndRetranslateLanguage [0] "es" "Spanish" low_world)).

(** An outcome that carries no string content: a rejected call, or a
    response whose content is not a string. *)
Definition no_content (o : ApiOutcome) : bool :=
  match o with ApiResponse (Some _) => false | _ => true end.

(** The number of translations [translateLanguage] counts as successful. *)
Definition count_usable (ts : list string) : nat :=
  length (List.filter (fun t => usable (Some t)) ts).

(** The counts read from a translation result (0 for other entries). *)
Definition translated_of (r : ResultEntry) : nat :=
  match r with RTranslation t => tr_translatedCount t | _ => 0 end.

Definition total_of (r : ResultEntry) : nat :=
  match r with RTranslation t => tr_totalCount t | _ => 0 end.

(** An entry of the results array that is a translation result. *)
Definition is_RTranslation (r : ResultEntry) : bool :=
  match r with RTranslation _ => true | _ => false end.

(** The number of languages counted in a quality distribution. *)
Definition dist_total (d : QualityDistribution) : nat :=
  excellent d + good d + acceptable d + needsImprovement d.

(** The sum of the language averages weighted by their sample sizes. *)
Definition weighted_sum (log : list LanguageReport) : Q :=
  fold_right (fun r acc => lr_averageScore r * inject_Z (Z.of_nat (lr_sampleSize r)) + acc)%Q
    0%Q log.

(** The entries [translateAllLanguages] pushes for one language: a
    translation result and a validation outcome, an error entry alone (the
    translation threw), or a translation result and an error entry (the
    validation threw). *)
Definition language_block (lc : string) (b : list ResultEntry) : Prop :=
  (exists t o, b = [RTranslation t; RValidation o]
               /\ tr_languageCode t = lc /\ lo_languageCode o = lc)
  \/ (exists e, b = [RError lc (js_display (LANGUAGE_NAMES !! lc)) e])
  \/ (exists t e, b = [RTranslation t; RError lc (js_display (LANGUAGE_NAMES !! lc)) e]
                 /\ tr_languageCode t = lc).

(** The parts of the world no operation changes: the source of the shuffles
    and the number of objects in the heap. *)
Definition stable_rel (w w' : World) : Prop :=
  w_shuffle w' = w_shuffle w /\ length (w_store w') = length (w_store w).

(** Every reference of the array points to an object. *)
Definition refs_ok (w : World) (refs : list nat) : Prop :=
  forall r, In r refs -> r < length (w_store w).

(** [arr.sort(() => 0.5 - Math.random())] reorders the array. *)
Definition perm_shuffle (w : World) : Prop :=
  forall k l, w_shuffle w k l ≡ₚ l.

(** Some reference of the array points to a record with a non-blank
    translation into [lc]. *)
Definition has_some_translation (w : World) (amenities : list nat) (lc : string) : bool :=
  existsb (fun x => match w_store w !! x with
                    | Some a => has_translation lc a | None => false end) amenities.

(* ======================================================================== *)
(** * Properties *)

(* ------------------------------------------------------------------------ *)
(** ** Quality levels and the keyword ladder *)

(** C8: [determineQualityLevel] maps a score to EXCELLENT iff it is at least
    9.0, GOOD iff in [7.5, 9.0), ACCEPTABLE iff in [6.0, 7.5) and
    NEEDS_IMPROVEMENT iff below 6.0; in particular 9.0, 7.5, 6.0 and 5.99 map
    to EXCELLENT, GOOD, ACCEPTABLE and NEEDS_IMPROVEMENT. *)
Theorem determineQualityLevel_thresholds (s : Q) :
  (determineQualityLevel s = "EXCELLENT" <-> (9 <= s)%Q)
  /\ (determineQualityLevel s = "GOOD" <-> (15 # 2 <= s /\ s < 9)%Q)
  /\ (determineQualityLevel s = "ACCEPTABLE" <-> (6 <= s /\ s < 15 # 2)%Q)
  /\ (determineQualityLevel s = "NEEDS_IMPROVEMENT" <-> (s < 6)%Q)
  /\ determineQualityLevel 9 = "EXCELLENT"
  /\ determineQualityLevel (15 # 2) = "GOOD"
  /\ determineQualityLevel 6 = "ACCEPTABLE"
  /\ determineQualityLevel (599 # 100) = "NEEDS_IMPROVEMENT".
Proof.
  unfold determineQualityLevel, EXCELLENT_THRESHOLD, GOOD_THRESHOLD, ACCEPTABLE_THRESHOLD.
  destruct (Qle_bool 9 s) eqn:E9; [|destruct (Qle_bool (15 # 2) s) eqn:E7;
    [|destruct (Qle_bool 6 s) eqn:E6]];
  repeat match goal with
         | H : Qle_bool _ _ = true |- _ => apply Qle_bool_iff in H
         | H : Qle_bool _ _ = false |- _ =>
             apply not_true_iff_false in H; rewrite Qle_bool_iff in H; apply Qnot_le_lt in H
         end;
  repeat split; try reflexivity; try discriminate; intros;
  repeat match goal with H : _ /\ _ |- _ => destruct H end;
  try lra; exfalso; lra.
Qed.

(** C9: [extractScoreFromAssessment] is the keyword ladder on the
    lower-cased text, tried in order: excellent/perfect 9.5, very good/good
    8.0, acceptable/adequate 6.5, poor/bad 3.0, failed/error 0, else 5.0. *)
Theorem extractScoreFromAssessment_ladder (assessment : string) :
  let lower := toLowerCase assessment in
  let hit (p q : string) := includes lower p || includes lower q in
  (hit "excellent" "perfect" = true -> extractScoreFromAssessment assessment = 19 # 2)
  /\ (hit "excellent" "perfect" = false -> hit "very good" "good" = true ->
      extractScoreFromAssessment assessment = 8%Q)
  /\ (hit "excellent" "perfect" = false -> hit "very good" "good" = false ->
      hit "acceptable" "adequate" = true ->
      extractScoreFromAssessment assessment = 13 # 2)
  /\ (hit "excellent" "perfect" = false -> hit "very good" "good" = false ->
      hit "acceptable" "adequate" = false -> hit "poor" "bad" = true ->
      extractScoreFromAssessment assessment = 3%Q)
  /\ (hit "excellent" "perfect" = false -> hit "very good" "good" = false ->
      hit "acceptable" "adequate" = false -> hit "poor" "bad" = false ->
      hit "failed" "error" = true -> extractScoreFromAssessment assessment = 0%Q)
  /\ (hit "excellent" "perfect" = false -> hit "very good" "good" = false ->
      hit "acceptable" "adequate" = false -> hit "poor" "bad" = false ->
      hit "failed" "error" = false -> extractScoreFromAssessment assessment = 5%Q).
Proof.
  cbv zeta. unfold extractScoreFromAssessment.
  repeat split; intros;
    repeat match goal with H : ?b = _ |- context [?b] => rewrite H end;
    reflexivity.
Qed.

(* ------------------------------------------------------------------------ *)
(** ** The response parser *)

(** The parser always returns exactly [expectedCount] entries. *)
Lemma parseTranslationResponse_length (aiResponse : string) (expectedCount : nat) :
  length (parseTranslationResponse aiResponse expectedCount) = expectedCount.
Proof. unfold parseTranslationResponse. rewrite length_map, length_seq. reflexivity. Qed.

Lemma parseTranslationResponse_short_input :
  parseTranslationResponse "1. Foo" 3
  = ["Foo"; "[MISSING TRANSLATION 2]"; "[MISSING TRANSLATION 3]"]%string.
Proof. vm_compute. reflexivity. Qed.

(** C6: a numbered line that ends in a carriage return (a CRLF response), or
    that is indented, keeps its "1." marker: the regular expression
    [^\d+\.\s*(.+)$] fails on it ([.] does not match the carriage return, [^]
    does not skip the indentation) and the fallback keeps the trimmed line. *)
Theorem parseTranslationResponse_keeps_marker :
  parseTranslationResponse
    ("1. Foo" ++ String carriage_return (String newline "2. Bar")) 2
  = ["1. Foo"; "Bar"]%string
  /\ parseTranslationResponse "  1. Foo" 1 = ["1. Foo"]%string.
Proof. split; vm_compute; reflexivity. Qed.

(* ------------------------------------------------------------------------ *)
(** ** Retry exhaustion in [translateLanguage] *)

(** C1: after three failed attempts [translateBatch] returns
    ["[TRANSLATION_ERROR]"] for each phrase, but [translateLanguage] only
    skips ["[TRANSLATION ERROR]"] (with a space): the sentinel is written into
    both records, which then no longer count as missing. *)
Theorem translateLanguage_writes_error_sentinel :
  let '(res, w) := translateLanguage [0; 1] "es" "Spanish" failing_world in
  length (w_prompts w) = 3
  /\ map (fun a => nameAll_at a "es") (w_store w)
     = [Some TRANSLATION_ERROR; Some TRANSLATION_ERROR]
  /\ fst (findMissingTranslations [0; 1] "es" w) = Ok []
  /\ res = Ok (mkTranslateResult "es" "Spanish" 2 2 "completed" [mkBatchResult 2 2]).
Proof. vm_compute. repeat split; reflexivity. Qed.

(* ------------------------------------------------------------------------ *)
(** ** The sample of the validation pass *)

(** C5: the filter of [validateAndRetranslateLanguage] excludes
    ["[TRANSLATION_FAILED]"], not the ["[TRANSLATION_ERROR]"] sentinel that
    [translateBatch] produces, and [validateLanguage] only drops blank
    slots: the sentinel record is sampled and scored. *)
Theorem validation_samples_error_sentinel :
  (match fst (validateAndRetranslateLanguage [0] "es" "Spanish" sentinel_world) with
   | Ok o => option_map (map vrec_translatedText) (lo_validationResults o)
             = Some [Some TRANSLATION_ERROR]
   | Throw _ => False
   end)
  /\ (match fst (validateLanguage [0] "es" "Spanish" 5 sentinel_world) with
      | Ok r => map vrec_translatedText (lr_validationResults r) = [Some TRANSLATION_ERROR]
      | Throw _ => False
      end).
Proof. vm_compute. split; reflexivity. Qed.

(* ------------------------------------------------------------------------ *)
(** ** [validateSingleTranslation] and unknown language codes *)

(** C10: [validateSingleTranslation] throws exactly for language codes that
    are not keys of [LANGUAGE_NAMES] (the prompt is built before the [try]);
    for a known code it always returns a result object, whatever the remote
    model does. *)
Theorem validateSingleTranslation_throws_iff_unknown
  (englishText translatedText : option string) (languageCode : string) (w : World) :
  (LANGUAGE_NAMES !! languageCode = None ->
   exists e, validateSingleTranslation englishText translatedText languageCode w = (Throw e, w))
  /\ (forall languageName, LANGUAGE_NAMES !! languageCode = Some languageName ->
      exists v w', validateSingleTranslation englishText translatedText languageCode w
                   = (Ok v, w')).
Proof.
  unfold validateSingleTranslation, createEnhancedValidationPrompt.
  split.
  - intros H. rewrite H. eexists. reflexivity.
  - intros languageName H. rewrite H.
    unfold bind, api_call.
    destruct (w_script w) as [|o rest];
      [| destruct o as [m|[c|]]]; cbn; eauto.
Qed.

(* ------------------------------------------------------------------------ *)
(** ** The average score of a validation pass *)

Lemma validate_samples_total (lc : string) (sampleData : list nat) :
  forall acc tot w res tot' w',
  validate_samples lc sampleData acc tot w = (Ok (res, tot'), w') ->
  exists fresh, res = acc ++ fresh /\ length fresh = length sampleData
    /\ (totalScore tot' == totalScore tot + sum_scores fresh)%Q.
Proof.
  induction sampleData as [|r rest IH]; intros acc tot w res tot' w' H.
  - cbn in H. injection H as <- <- _. exists []. rewrite app_nil_r.
    split; [reflexivity|]. split; [reflexivity|].
    unfold sum_scores; cbn [fold_right]. ring.
  - cbn [validate_samples] in H. unfold bind in H at 1.
    destruct (load_obj r w) as [[a|e] w1]; [|discriminate].
    unfold bind in H.
    destruct (validateSingleTranslation _ _ lc w1) as [[v|e] w2]; [|discriminate].
    apply IH in H as (fresh & -> & Hlen & Hsum).
    eexists (_ :: fresh). split; [rewrite <- app_assoc; reflexivity|].
    split; [cbn; rewrite Hlen; reflexivity|].
    cbn [totalScore] in Hsum. rewrite Hsum.
    unfold sum_scores; cbn [fold_right vrec_score]. ring.
Qed.

(** C7: for a non-empty sample, the average score of the report is the mean
    of the overall scores of the sampled records (the divisor is the sample
    size, which is at most the number of translated records). *)
Theorem validateLanguage_average_is_sample_mean (amenities : list nat)
  (lc ln : string) (sampleSize : nat) (w w' : World) (r : LanguageReport) :
  validateLanguage amenities lc ln sampleSize w = (Ok r, w') ->
  lr_sampleSize r <> 0 ->
  lr_sampleSize r = length (lr_validationResults r)
  /\ lr_sampleSize r <= lr_totalTranslations r
  /\ (lr_averageScore r
      == sum_scores (lr_validationResults r)
         / inject_Z (Z.of_nat (length (lr_validationResults r))))%Q.
Proof.
  unfold validateLanguage, bind, filter_refs.
  destruct (forallb _ amenities); [|discriminate].
  set (translated := List.filter _ amenities).
  destruct translated as [|t0 ts] eqn:Et.
  - intros H. injection H as <- _. cbn. congruence.
  - unfold shuffle.
    set (sampleData := firstn _ _).
    destruct (validate_samples lc sampleData [] zero_totals _) as [[[res tot']|e] w2] eqn:Hv;
      [|discriminate].
    intros H _. injection H as <- _. cbn.
    apply validate_samples_total in Hv as (fresh & Hres & Hlen & Hsum).
    cbn in Hres. subst res.
    assert (Hle : length sampleData <= length (t0 :: ts)).
    { unfold sampleData. rewrite length_take. lia. }
    split; [lia|]. split; [exact Hle|].
    rewrite Hlen, Hsum. cbn. rewrite Qplus_0_l. reflexivity.
Qed.

(* ------------------------------------------------------------------------ *)
(** ** Frame lemmas

    [frame P m]: every run of [m] relates its initial and final worlds by
    [P]. The section proves it for the composite operations from the
    primitives, once for every preorder [P]; it is used below for "the
    object at [r] is unchanged" and for "prompts are only appended". *)

Section Frame.
Variable P : World -> World -> Prop.
Hypothesis P_refl : forall w, P w w.
Hypothesis P_trans : forall w1 w2 w3, P w1 w2 -> P w2 w3 -> P w1 w3.
(** The references the computations may write to. *)
Variable ok_ref : nat -> Prop.
Hypothesis frame_api_call : forall prompt, frame P (api_call prompt).
Hypothesis frame_load_obj : forall r, frame P (load_obj r).
Hypothesis frame_filter_refs : forall pred refs, frame P (filter_refs pred refs).
Hypothesis frame_shuffle : forall l, frame P (shuffle l).
Hypothesis frame_modify : forall r f, ok_ref r -> frame P (modify r f).

Lemma frame_ret {A} (a : A) : frame P (ret a).
Proof. intros w res w' H. injection H as _ <-. apply P_refl. Qed.

Lemma frame_throw {A} msg : frame P (@throw A msg).
Proof. intros w res w' H. injection H as _ <-. apply P_refl. Qed.

Lemma frame_bind {A B} (m : M A) (k : A -> M B) :
  frame P m -> (forall a, frame P (k a)) -> frame P (bind m k).
Proof.
  intros Hm Hk w res w' H. unfold bind in H.
  destruct (m w) as [[a|e] w1] eqn:E.
  - exact (P_trans _ _ _ (Hm _ _ _ E) (Hk a _ _ _ H)).
  - injection H as _ <-. exact (Hm _ _ _ E).
Qed.

Lemma frame_mapM {A B} (f : A -> M B) (l : list A) :
  (forall x, frame P (f x)) -> frame P (mapM f l).
Proof.
  intros Hf. induction l as [|x l IH]; cbn [mapM]; [apply frame_ret|].
  apply frame_bind; [apply Hf|]. intros y.
  apply frame_bind; [exact IH|]. intros ys. apply frame_ret.
Qed.

Lemma frame_attempt_loop {A} prompt (parse : string -> list A) fallback remaining :
  frame P (attempt_loop prompt parse fallback remaining).
Proof.
  induction remaining as [|n IH]; cbn [attempt_loop]; [apply frame_ret|].
  apply frame_bind; [apply frame_api_call|]. intros o.
  destruct o as [m|[c|]]; try apply frame_ret;
    destruct (n =? 0); first [apply frame_ret | exact IH].
Qed.

Lemma frame_validateSingleTranslation eng tt lc :
  frame P (validateSingleTranslation eng tt lc).
Proof.
  unfold validateSingleTranslation.
  destruct (createEnhancedValidationPrompt eng tt lc); [|apply frame_throw].
  apply frame_bind; [apply frame_api_call|]. intros o.
  destruct o as [m|[c|]]; apply frame_ret.
Qed.

Lemma frame_validate_samples lc sampleData :
  forall acc tot, frame P (validate_samples lc sampleData acc tot).
Proof.
  induction sampleData as [|r rest IH]; intros acc tot; cbn [validate_samples];
    [apply frame_ret|].
  apply frame_bind; [apply frame_load_obj|]. intros a.
  apply frame_bind; [apply frame_validateSingleTranslation|]. intros v. apply IH.
Qed.

Lemma frame_validateLanguage refs lc ln sampleSize :
  frame P (validateLanguage refs lc ln sampleSize).
Proof.
  unfold validateLanguage.
  apply frame_bind; [apply frame_filter_refs|]. intros translated.
  destruct translated; [apply frame_ret|].
  apply frame_bind; [apply frame_shuffle|]. intros shuffled.
  apply frame_bind; [apply frame_validate_samples|]. intros p. apply frame_ret.
Qed.

Lemma frame_write_batch lc (batch : list nat) :
  (forall r, In r batch -> ok_ref r) ->
  forall j ts c, frame P (write_batch lc batch j ts c).
Proof.
  induction batch as [|r rest IH]; intros Hok j ts c; cbn [write_batch];
    [apply frame_ret|].
  destruct (usable (ts !! j)).
  - apply frame_bind; [apply frame_modify, Hok; left; reflexivity|].
    intros _. apply IH. intros r' Hr'. apply Hok. right. exact Hr'.
  - apply IH. intros r' Hr'. apply Hok. right. exact Hr'.
Qed.

Lemma frame_translate_batches lc ln (batches : list (list nat)) :
  (forall b r, In b batches -> In r b -> ok_ref r) ->
  forall c acc, frame P (translate_batches lc ln batches c acc).
Proof.
  induction batches as [|b rest IH]; intros Hok c acc; cbn [translate_batches];
    [apply frame_ret|].
  apply frame_bind.
  { apply frame_mapM. intros x. apply frame_bind; [apply frame_load_obj|].
    intros a. apply frame_ret. }
  intros phrases. apply frame_bind; [apply frame_attempt_loop|]. intros ts.
  apply frame_bind.
  - apply frame_write_batch. intros r Hr. apply (Hok b); [left; reflexivity|exact Hr].
  - intros c'. apply IH. intros b' r Hb' Hr. apply (Hok b'); [right; exact Hb'|exact Hr].
Qed.

Lemma frame_write_improved lc (refs : list nat) :
  (forall r, In r refs -> ok_ref r) ->
  forall i imp, frame P (write_improved lc refs i imp).
Proof.
  induction refs as [|r rest IH]; intros Hok i imp; cbn [write_improved];
    [apply frame_ret|].
  apply frame_bind; [apply frame_modify, Hok; left; reflexivity|].
  intros _. apply IH. intros r' Hr'. apply Hok. right. exact Hr'.
Qed.
End Frame.

(** *** The object at a reference is unchanged *)

Create HintDb keeps.

Lemma keeps_api_call r prompt : keeps_at r (api_call prompt).
Proof.
  intros w res w' H. unfold api_call in H.
  destruct (w_script w); injection H as _ <-; reflexivity.
Qed.

Lemma keeps_load_obj r r' : keeps_at r (load_obj r').
Proof.
  intros w res w' H. unfold load_obj in H.
  destruct (w_store w !! r'); injection H as _ <-; reflexivity.
Qed.

Lemma keeps_filter_refs r pred refs : keeps_at r (filter_refs pred refs).
Proof.
  intros w res w' H. unfold filter_refs in H.
  destruct (forallb _ refs); injection H as _ <-; reflexivity.
Qed.

Lemma keeps_shuffle r l : keeps_at r (shuffle l).
Proof. intros w res w' H. injection H as _ <-. reflexivity. Qed.

Lemma keeps_modify r r' f : r' <> r -> keeps_at r (modify r' f).
Proof.
  intros Hne w res w' H. injection H as _ <-. cbn.
  apply list_lookup_alter_ne. exact Hne.
Qed.

Lemma keeps_refl r : forall w : World, w_store w !! r = w_store w !! r.
Proof. reflexivity. Qed.

Lemma keeps_trans r : forall w1 w2 w3 : World,
  w_store w2 !! r = w_store w1 !! r -> w_store w3 !! r = w_store w2 !! r ->
  w_store w3 !! r = w_store w1 !! r.
Proof. congruence. Qed.

#[local] Hint Resolve keeps_api_call keeps_load_obj keeps_filter_refs keeps_shuffle
  keeps_refl keeps_trans : keeps.

Lemma keeps_ret {A} r (a : A) : keeps_at r (ret a).
Proof. apply frame_ret; eauto with keeps. Qed.

Lemma keeps_bind {A B} r (m : M A) (k : A -> M B) :
  keeps_at r m -> (forall a, keeps_at r (k a)) -> keeps_at r (bind m k).
Proof. apply frame_bind; eauto with keeps. Qed.

Lemma keeps_validateLanguage r refs lc ln n : keeps_at r (validateLanguage refs lc ln n).
Proof. apply frame_validateLanguage; eauto with keeps. Qed.

Lemma keeps_retranslateBatch r eng cur issues lc ln :
  keeps_at r (retranslateBatch eng cur issues lc ln).
Proof. apply frame_attempt_loop; eauto with keeps. Qed.

Lemma keeps_translate_batches r lc ln (batches : list (list nat)) :
  (forall b, In b batches -> ~ In r b) ->
  forall c acc, keeps_at r (translate_batches lc ln batches c acc).
Proof.
  intros Hnin c acc. apply (frame_translate_batches _ (keeps_refl r) (keeps_trans r)
    (fun r' => r' <> r)); auto with keeps.
  - intros r' f Hne. apply keeps_modify. exact Hne.
  - intros b r' Hb Hr' ->. exact (Hnin b Hb Hr').
Qed.

Lemma keeps_write_improved r lc (refs : list nat) i imp :
  ~ In r refs -> keeps_at r (write_improved lc refs i imp).
Proof.
  intros Hnin. apply (frame_write_improved _ (keeps_refl r) (keeps_trans r)
    (fun r' => r' <> r)).
  - intros r' f Hne. apply keeps_modify. exact Hne.
  - intros r' Hr' ->. exact (Hnin Hr').
Qed.

Lemma chunks_fuel_incl (fuel n : nat) (l : list nat) :
  forall b x, In b (chunks_fuel fuel n l) -> In x b -> In x l.
Proof.
  revert l. induction fuel as [|f IH]; intros l b x Hb Hx; cbn in Hb; [contradiction|].
  destruct l as [|y l']; [contradiction|].
  rewrite <- (firstn_skipn n (y :: l')). apply in_or_app.
  destruct Hb as [<-|Hb].
  - left. exact Hx.
  - right. exact (IH _ _ _ Hb Hx).
Qed.

Lemma nonblank_not_missing (lc : string) (a : Amenity) :
  nonblank (current_translation a lc) -> is_missing lc a = false.
Proof.
  unfold nonblank, current_translation, is_missing.
  destruct (truthy (nameAll_at a lc)) eqn:Et.
  - destruct (nameAll_at a lc); [trivial | contradiction].
  - destruct (props a !! lc) as [t|]; [|contradiction].
    intros Hb. rewrite Hb.
    assert (Ht : truthy (Some t) = true).
    { cbn. destruct (String.eqb t EmptyString) eqn:E; [|reflexivity].
      apply String.eqb_eq in E. subst t. discriminate. }
    rewrite Ht. reflexivity.
Qed.

Lemma translateLanguage_keeps_record (amenities : list nat) (lc ln : string)
  (w w' : World) (res : Result TranslateResult) (r : nat) (a : Amenity) :
  w_store w !! r = Some a ->
  is_missing lc a = false ->
  translateLanguage amenities lc ln w = (res, w') ->
  w_store w' !! r = Some a.
Proof.
  intros Ha Hm H.
  unfold translateLanguage, findMissingTranslations, bind, filter_refs in H.
  destruct (forallb _ amenities); [|injection H as _ <-; exact Ha].
  set (missing := List.filter _ amenities) in H.
  assert (Hnin : ~ In r missing).
  { intros Hin. apply filter_In in Hin as [_ Hp]. rewrite Ha, Hm in Hp. discriminate. }
  destruct missing as [|m0 ms] eqn:Em.
  - injection H as _ <-. exact Ha.
  - rewrite <- Em in H.
    change (bind (translate_batches lc ln (chunks BATCH_SIZE missing) 0 [])
              (fun res => ret (mkTranslateResult lc ln (fst res) (length missing)
                                 "completed" (snd res))) w = (res, w')) in H.
    rewrite <- Ha. revert H. apply keeps_bind.
    + apply keeps_translate_batches. intros b Hb Hrb. apply Hnin. rewrite <- Em.
      exact (chunks_fuel_incl _ _ _ _ _ Hb Hrb).
    + intros p. apply keeps_ret.
Qed.

(** C3: a record whose translation for the language is non-blank before
    [translateLanguage] is the same object value after the call, and after a
    second call made right after it. *)
Theorem translateLanguage_keeps_existing (amenities : list nat) (lc ln : string)
  (w w1 w2 : World) (res1 res2 : Result TranslateResult) (r : nat) (a : Amenity) :
  w_store w !! r = Some a ->
  nonblank (current_translation a lc) ->
  translateLanguage amenities lc ln w = (res1, w1) ->
  translateLanguage amenities lc ln w1 = (res2, w2) ->
  w_store w1 !! r = Some a /\ w_store w2 !! r = Some a.
Proof.
  intros Ha Hn H1 H2.
  pose proof (nonblank_not_missing lc a Hn) as Hm.
  pose proof (translateLanguage_keeps_record _ _ _ _ _ _ _ _ Ha Hm H1) as Ha1.
  split; [exact Ha1|].
  exact (translateLanguage_keeps_record _ _ _ _ _ _ _ _ Ha1 Hm H2).
Qed.

(** *** Prompts are only appended *)

Lemma grows_refl : forall w : World, exists ext, w_prompts w = w_prompts w ++ ext.
Proof. intros w. exists []. rewrite app_nil_r. reflexivity. Qed.

Lemma grows_trans : forall w1 w2 w3 : World,
  (exists ext, w_prompts w2 = w_prompts w1 ++ ext) ->
  (exists ext, w_prompts w3 = w_prompts w2 ++ ext) ->
  exists ext, w_prompts w3 = w_prompts w1 ++ ext.
Proof.
  intros w1 w2 w3 [e1 H1] [e2 H2]. exists (e1 ++ e2).
  rewrite H2, H1, app_assoc. reflexivity.
Qed.

Lemma grows_api_call prompt : grows (api_call prompt).
Proof.
  intros w res w' H. unfold api_call in H. exists [prompt].
  destruct (w_script w); injection H as _ <-; reflexivity.
Qed.

Lemma grows_load_obj r : grows (load_obj r).
Proof.
  intros w res w' H. unfold load_obj in H.
  destruct (w_store w !! r); injection H as _ <-; apply grows_refl.
Qed.

Lemma grows_filter_refs pred refs : grows (filter_refs pred refs).
Proof.
  intros w res w' H. unfold filter_refs in H.
  destruct (forallb _ refs); injection H as _ <-; apply grows_refl.
Qed.

Lemma grows_shuffle l : grows (shuffle l).
Proof. intros w res w' H. injection H as _ <-. exists []. cbn. rewrite app_nil_r. reflexivity. Qed.

Lemma grows_modify r f : grows (modify r f).
Proof. intros w res w' H. injection H as _ <-. exists []. cbn. rewrite app_nil_r. reflexivity. Qed.

Create HintDb grows.

#[local] Hint Resolve grows_refl grows_trans grows_api_call grows_load_obj
  grows_filter_refs grows_shuffle grows_modify : grows.

Lemma grows_validateLanguage refs lc ln n : grows (validateLanguage refs lc ln n).
Proof. apply frame_validateLanguage; eauto with grows. Qed.

Lemma grows_attempt_loop {A} prompt (parse : string -> list A) fallback remaining :
  grows (attempt_loop prompt parse fallback remaining).
Proof. apply frame_attempt_loop; eauto with grows. Qed.

Lemma grows_write_improved lc refs i imp : grows (write_improved lc refs i imp).
Proof.
  apply (frame_write_improved _ grows_refl grows_trans (fun _ => True)); auto.
  intros r f _. apply grows_modify.
Qed.

(* ------------------------------------------------------------------------ *)
(** ** Facts about single steps *)

Lemma filter_refs_ok pred refs w l w' :
  filter_refs pred refs w = (Ok l, w') ->
  w' = w /\ l = List.filter (fun r => match w_store w !! r with
                                      | Some a => pred a | None => false end) refs
  /\ forall r, In r l -> exists a, w_store w !! r = Some a /\ pred a = true.
Proof.
  unfold filter_refs. destruct (forallb _ refs); [|discriminate].
  intros H. injection H as <- <-. split; [reflexivity|]. split; [reflexivity|].
  intros r Hr. apply filter_In in Hr as [_ Hp].
  destruct (w_store w !! r) as [a|]; [|discriminate]. exists a. split; auto.
Qed.

Lemma mapM_load_obj_ok (refs : list nat) (w : World) :
  (forall r, In r refs -> exists a, w_store w !! r = Some a) ->
  exists rows, mapM load_obj refs w = (Ok rows, w).
Proof.
  induction refs as [|r rest IH]; intros Hv; cbn [mapM].
  - exists []. reflexivity.
  - destruct (Hv r (or_introl eq_refl)) as [a Ha].
    destruct IH as [rows Hrows]; [intros r' Hr'; apply Hv; right; exact Hr'|].
    assert (Hl : load_obj r w = (Ok a, w)) by (unfold load_obj; rewrite Ha; reflexivity).
    exists (a :: rows). unfold bind at 1. rewrite Hl.
    unfold bind. rewrite Hrows. reflexivity.
Qed.

Lemma load_obj_world r w res w' : load_obj r w = (res, w') -> w' = w.
Proof.
  unfold load_obj. destruct (w_store w !! r); intros H; injection H as _ <-; reflexivity.
Qed.

Lemma mapM_load_obj_world (refs : list nat) (w w' : World) res :
  mapM load_obj refs w = (res, w') -> w' = w.
Proof.
  revert w w' res. induction refs as [|r rest IH]; intros w w' res H; cbn [mapM] in H.
  - injection H as _ <-. reflexivity.
  - unfold bind at 1 in H.
    destruct (load_obj r w) as [[a|e] w1] eqn:El; apply load_obj_world in El; subst w1.
    + unfold bind in H. destruct (mapM load_obj rest w) as [[rows|e] w2] eqn:E;
        injection H as _ <-; exact (IH _ _ _ E).
    + injection H as _ <-. reflexivity.
Qed.

Lemma bind_ok {A B} (m : M A) (k : A -> M B) w a w1 :
  m w = (Ok a, w1) -> bind m k w = k a w1.
Proof. intros H. unfold bind. rewrite H. reflexivity. Qed.

Lemma api_call_ok prompt w :
  exists o w1, api_call prompt w = (Ok o, w1) /\ w_prompts w1 = w_prompts w ++ [prompt].
Proof. unfold api_call. destruct (w_script w); eauto. Qed.

Lemma attempt_loop_first_prompt {A} prompt (parse : string -> list A) fallback n w res w' :
  attempt_loop prompt parse fallback (S n) w = (res, w') ->
  exists rest, w_prompts w' = w_prompts w ++ prompt :: rest.
Proof.
  cbn [attempt_loop].
  destruct (api_call_ok prompt w) as (o & w1 & Hc & Hw1).
  rewrite (bind_ok _ _ _ _ _ Hc). intros H.
  assert (Hg : exists ext, w_prompts w' = w_prompts w1 ++ ext).
  { destruct o as [m|[c|]]; try destruct (n =? 0); cbn beta iota in H;
      first [ injection H as _ <-; exists []; rewrite app_nil_r; reflexivity
            | eapply grows_attempt_loop; exact H ]. }
  destruct Hg as [ext Hext]. exists ext. rewrite Hext, Hw1, <- app_assoc. reflexivity.
Qed.

Lemma retranslateBatch_first_prompt eng cur issues lc ln w res w' :
  retranslateBatch eng cur issues lc ln w = (res, w') ->
  exists rest, w_prompts w'
    = w_prompts w ++ createRetranslationPrompt eng cur issues lc ln :: rest.
Proof. unfold retranslateBatch, maxRetries. apply attempt_loop_first_prompt. Qed.

Lemma createRetranslationPrompt_prefix eng cur issues lc ln :
  is_retranslation_prompt (createRetranslationPrompt eng cur issues lc ln) = true.
Proof. reflexivity. Qed.

Lemma prompts_extend (l0 l1 l2 r e : list string) p :
  l1 = l0 ++ p :: r -> l2 = l1 ++ e -> l2 = l0 ++ p :: (r ++ e).
Proof. intros -> ->. rewrite <- app_assoc. reflexivity. Qed.

Lemma needsRetranslation_iff s :
  needsRetranslation s = true <-> (s < QUALITY_THRESHOLD)%Q.
Proof.
  unfold needsRetranslation, Qltb.
  destruct (Qle_bool QUALITY_THRESHOLD s) eqn:E; cbn [negb]; split; intros H; try discriminate.
  - apply Qle_bool_iff in E. exfalso. exact (Qlt_not_le _ _ H E).
  - apply Qnot_le_lt. intros Hle. apply Qle_bool_iff in Hle. congruence.
  - reflexivity.
Qed.

(** Once triggered, the retranslation step sends a retranslation prompt
    before anything else, and its outcome is one of the two retranslation
    statuses. *)
Lemma retranslate_step_triggered refs lc ln report w res w' :
  (forall r, In r refs -> exists a, w_store w !! r = Some a) ->
  needsRetranslation (lr_averageScore report) = true ->
  retranslate_step refs lc ln report w = (res, w') ->
  (exists p rest, w_prompts w' = w_prompts w ++ p :: rest
                  /\ is_retranslation_prompt p = true)
  /\ (forall o, res = Ok o -> lo_status o = "retranslated_success"
                              \/ lo_status o = "retranslation_failed_kept_original").
Proof.
  intros Hv Hn. unfold retranslate_step. cbv zeta. rewrite Hn.
  destruct (mapM_load_obj_ok refs w Hv) as [rows Hrows].
  rewrite (bind_ok _ _ _ _ _ Hrows). cbv beta. intros H.
  unfold bind at 1 in H.
  match type of H with context [retranslateBatch ?a ?b ?c ?d ?e w] =>
    destruct (retranslateBatch a b c d e w) as [[imp|err] w2] eqn:E end;
  destruct (retranslateBatch_first_prompt _ _ _ _ _ _ _ _ E) as [rest Hrest].
  2: { injection H as <- <-. split; [|discriminate].
       do 2 eexists. split; [exact Hrest|apply createRetranslationPrompt_prefix]. }
  unfold bind at 1 in H.
  destruct (write_improved lc refs 0 imp w2) as [[u|err] w3] eqn:E3;
    destruct (grows_write_improved _ _ _ _ _ _ _ E3) as [e3 He3].
  2: { injection H as <- <-. split; [|discriminate].
       do 2 eexists. split; [exact (prompts_extend _ _ _ _ _ _ Hrest He3)|].
       apply createRetranslationPrompt_prefix. }
  unfold bind in H.
  destruct (validateLanguage refs lc ln 5 w3) as [[rv|err] w4] eqn:E4;
    destruct (grows_validateLanguage _ _ _ _ _ _ _ E4) as [e4 He4].
  2: { injection H as <- <-. split; [|discriminate].
       do 2 eexists. split;
         [exact (prompts_extend _ _ _ _ _ _ (prompts_extend _ _ _ _ _ _ Hrest He3) He4)|].
       apply createRetranslationPrompt_prefix. }
  destruct (Qle_bool QUALITY_THRESHOLD (lr_averageScore rv));
    injection H as <- <-; (split;
      [ do 2 eexists; split;
          [exact (prompts_extend _ _ _ _ _ _ (prompts_extend _ _ _ _ _ _ Hrest He3) He4)
          | apply createRetranslationPrompt_prefix]
      | intros o Ho; injection Ho as <-; cbn; auto ]).
Qed.

(** C4: with the language's valid translations selected and the first
    validation pass done, retranslation is triggered exactly when the
    average score is strictly below 8.5. At 8.5 or above the outcome is
    [quality_acceptable] and the world is the one the validation pass left
    (no retranslation prompt is sent); below 8.5 a retranslation prompt is
    the next one sent and the status is never [quality_acceptable]. The
    boundary values 8.5 and 8.49 fall on the two sides. *)
Theorem validateAndRetranslateLanguage_threshold amenities lc ln w translated report w1 :
  filter_refs (has_valid_translation lc) amenities w = (Ok translated, w) ->
  translated <> [] ->
  validateLanguage translated lc ln 5 w = (Ok report, w1) ->
  ((17 # 2 <= lr_averageScore report)%Q ->
     validateAndRetranslateLanguage amenities lc ln w
     = (Ok (mkLanguageOutcome lc ln (lr_averageScore report) false "quality_acceptable"
              None None (Some (lr_validationResults report))), w1))
  /\ ((lr_averageScore report < 17 # 2)%Q ->
      forall res w', validateAndRetranslateLanguage amenities lc ln w = (res, w') ->
      (exists p rest, w_prompts w' = w_prompts w1 ++ p :: rest
                      /\ is_retranslation_prompt p = true)
      /\ (forall o, res = Ok o -> lo_status o <> "quality_acceptable"))
  /\ needsRetranslation (17 # 2) = false
  /\ needsRetranslation (849 # 100) = true.
Proof.
  intros Hf Hne Hv.
  assert (Hrun : validateAndRetranslateLanguage amenities lc ln w
                 = retranslate_step translated lc ln report w1).
  { unfold validateAndRetranslateLanguage. rewrite (bind_ok _ _ _ _ _ Hf).
    destruct translated as [|r0 t]; [contradiction|]. cbv beta iota.
    rewrite (bind_ok _ _ _ _ _ Hv). reflexivity. }
  split; [|split; [|split; reflexivity]].
  - intros Hle. rewrite Hrun. unfold retranslate_step. cbv zeta.
    assert (Hn : needsRetranslation (lr_averageScore report) = false).
    { destruct (needsRetranslation _) eqn:E; [|reflexivity].
      apply needsRetranslation_iff in E. exfalso. exact (Qlt_not_le _ _ E Hle). }
    rewrite Hn. reflexivity.
  - intros Hlt res w' H. rewrite Hrun in H.
    apply needsRetranslation_iff in Hlt.
    destruct (filter_refs_ok _ _ _ _ _ Hf) as (_ & _ & Hsel).
    assert (Hval : forall r, In r translated -> exists a, w_store w1 !! r = Some a).
    { intros r Hr. destruct (Hsel r Hr) as (a & Ha & _). exists a.
      rewrite (keeps_validateLanguage r _ _ _ _ _ _ _ Hv). exact Ha. }
    destruct (retranslate_step_triggered _ _ _ _ _ _ _ Hval Hlt H) as [Hp Hs].
    split; [exact Hp|].
    intros o Ho Hq. destruct (Hs o Ho) as [E|E]; rewrite Hq in E; discriminate.
Qed.

Lemma nameAll_at_set_nameAll lc v a : nameAll_at (set_nameAll lc v a) lc = v.
Proof. unfold nameAll_at, set_nameAll. cbn. destruct v; simplify_map_eq; reflexivity. Qed.

(** The write-back loop sets, for distinct references, the [k]-th
    reference's translation to the [(i + k)]-th improved entry. *)
Lemma write_improved_spec lc (refs : list nat) i imp w res w' :
  NoDup refs ->
  write_improved lc refs i imp w = (res, w') ->
  forall k r, refs !! k = Some r ->
  w_store w' !! r = set_nameAll lc (mjoin (imp !! (i + k))) <$> w_store w !! r.
Proof.
  revert i w. induction refs as [|r0 rest IH]; intros i w Hnd H k r Hk; [discriminate|].
  inversion Hnd as [|? ? Hnin Hnd']; subst.
  cbn [write_improved] in H. unfold bind at 1, modify at 1 in H. cbv beta iota in H.
  set (w1 := mkWorld _ _ _ _ _) in H.
  destruct k as [|k].
  - injection Hk as <-.
    assert (Hnin' : ~ In r0 rest) by (intros Hin; apply Hnin, list_elem_of_In, Hin).
    rewrite (keeps_write_improved r0 lc rest (S i) imp Hnin' _ _ _ H).
    cbn [w1 w_store]. rewrite Nat.add_0_r, list_lookup_alter. case_decide; congruence.
  - cbn in Hk. rewrite (IH (S i) w1 Hnd' H k r Hk).
    assert (Hne : r0 <> r).
    { intros ->. apply Hnin. eapply list_elem_of_lookup_2. exact Hk. }
    cbn [w1 w_store]. rewrite list_lookup_alter_ne by exact Hne.
    rewrite Nat.add_succ_r. reflexivity.
Qed.

(* ------------------------------------------------------------------------ *)
(** ** Instances of the theorems on concrete runs *)

Lemma translateLanguage_keeps_existing_witness :
  let run1 := translateLanguage [0; 1] "es" "Spanish" partial_world in
  let run2 := translateLanguage [0; 1] "es" "Spanish" (snd run1) in
  w_store (snd run1) !! 0 = Some (amenity_with 1 "Free WiFi" "es" "WiFi gratis")
  /\ w_store (snd run2) !! 0 = Some (amenity_with 1 "Free WiFi" "es" "WiFi gratis")
  /\ map (fun a => nameAll_at a "es") (w_store (snd run2))
     = [Some "WiFi gratis"; Some "Piscina"]%string.
Proof.
  cbv zeta.
  set (run1 := translateLanguage [0; 1] "es" "Spanish" partial_world).
  set (run2 := translateLanguage [0; 1] "es" "Spanish" (snd run1)).
  destruct (translateLanguage_keeps_existing [0; 1] "es" "Spanish" partial_world
              (snd run1) (snd run2) (fst run1) (fst run2) 0
              (amenity_with 1 "Free WiFi" "es" "WiFi gratis")) as [H1 H2];
    [reflexivity | vm_compute; reflexivity | apply surjective_pairing
    | apply surjective_pairing | ].
  split; [exact H1|split; [exact H2|]].
  subst run1 run2. vm_compute. reflexivity.
Defined.

Lemma validateLanguage_average_is_sample_mean_witness :
  lr_sampleSize five_report = 5
  /\ (lr_averageScore five_report == 43 # 5)%Q
  /\ lr_sampleSize five_report = length (lr_validationResults five_report)
  /\ lr_sampleSize five_report <= lr_totalTranslations five_report
  /\ (lr_averageScore five_report
      == sum_scores (lr_validationResults five_report)
         / inject_Z (Z.of_nat (length (lr_validationResults five_report))))%Q.
Proof.
  split; [vm_compute; reflexivity|]. split; [vm_compute; reflexivity|].
  apply (validateLanguage_average_is_sample_mean [0; 1; 2; 3; 4] "es" "Spanish" 5
           five_world (snd (validateLanguage [0; 1; 2; 3; 4] "es" "Spanish" 5 five_world))).
  - vm_compute. reflexivity.
  - vm_compute. discriminate.
Defined.

Lemma validateAndRetranslateLanguage_threshold_witness :
  lr_averageScore boundary_report = 17 # 2
  /\ validateAndRetranslateLanguage [0; 1] "es" "Spanish" boundary_world
     = (Ok (mkLanguageOutcome "es" "Spanish" (17 # 2) false "quality_acceptable"
              None None (Some (lr_validationResults boundary_report))),
        snd (validateLanguage [0; 1] "es" "Spanish" 5 boundary_world)).
Proof.
  assert (Havg : lr_averageScore boundary_report = 17 # 2) by (vm_compute; reflexivity).
  split; [exact Havg|]. rewrite <- Havg.
  destruct (validateAndRetranslateLanguage_threshold [0; 1] "es" "Spanish" boundary_world
              [0; 1] boundary_report
              (snd (validateLanguage [0; 1] "es" "Spanish" 5 boundary_world)))
    as [Hacc _].
  - vm_compute. reflexivity.
  - discriminate.
  - vm_compute. reflexivity.
  - apply Hacc. rewrite Havg. apply Qle_refl.
Defined.

(* ======================================================================== *)
(** * Further properties of the code *)

(* ------------------------------------------------------------------------ *)
(** ** The retry loop of [translateBatch] and [retranslateBatch] *)

Lemma attempt_loop_success {A} prompt (parse : string -> list A) fallback n
  (pre : list ApiOutcome) r post w :
  length pre < n ->
  forallb no_content pre = true ->
  w_script w = pre ++ ApiResponse (Some r) :: post ->
  attempt_loop prompt parse fallback n w
  = (Ok (parse r), mkWorld post (w_prompts w ++ List.repeat prompt (S (length pre)))
                      (w_store w) (w_shuffle w) (w_nshuffle w)).
Proof.
  revert n w. induction pre as [|o pre IH]; intros n w Hlen Hnc Hs;
    destruct n as [|n]; cbn in Hlen; try lia; cbn [attempt_loop]; unfold bind, api_call;
    rewrite Hs; cbn [app].
  - reflexivity.
  - cbn in Hnc. apply andb_prop in Hnc as [Ho Hnc].
    destruct o as [m|[c|]]; try discriminate; cbn beta iota;
      (destruct n as [|n]; [lia|]); cbn [Nat.eqb];
      (erewrite (IH (S n));
       [cbn [w_prompts w_store w_shuffle w_nshuffle]; rewrite <- app_assoc; reflexivity
       | lia | exact Hnc | reflexivity]).
Qed.

Lemma attempt_loop_exhausted {A} prompt (parse : string -> list A) fallback n w :
  forallb no_content (firstn n (w_script w)) = true ->
  attempt_loop prompt parse fallback n w
  = (Ok fallback, mkWorld (skipn n (w_script w)) (w_prompts w ++ List.repeat prompt n)
                    (w_store w) (w_shuffle w) (w_nshuffle w)).
Proof.
  revert w. induction n as [|n IH]; intros w Hnc.
  - cbn. rewrite app_nil_r. destruct w; reflexivity.
  - cbn [attempt_loop]. unfold bind, api_call.
    destruct (w_script w) as [|o rest] eqn:Hs.
    + cbn beta iota. destruct n as [|n]; cbn [Nat.eqb].
      * reflexivity.
      * rewrite IH by (cbn; destruct n; reflexivity).
        cbn [w_script w_prompts w_store w_shuffle w_nshuffle]. rewrite <- app_assoc.
        rewrite skipn_nil. reflexivity.
    + cbn in Hnc. apply andb_prop in Hnc as [Ho Hnc].
      destruct o as [m|[c|]]; try discriminate; cbn beta iota;
        (destruct n as [|n]; cbn [Nat.eqb];
         [reflexivity
         | rewrite IH by exact Hnc; cbn [w_script w_prompts w_store w_shuffle w_nshuffle];
           rewrite <- app_assoc; reflexivity]).
Qed.

Lemma attempt_loop_cases {A} prompt (parse : string -> list A) fallback n w :
  match fst (attempt_loop prompt parse fallback n w) with
  | Ok l => (exists r, l = parse r) \/ l = fallback
  | Throw _ => False
  end.
Proof.
  revert w. induction n as [|n IH]; intros w; cbn [attempt_loop].
  - cbn. right. reflexivity.
  - destruct (api_call_ok prompt w) as (o & w1 & Hc & _).
    rewrite (bind_ok _ _ _ _ _ Hc). cbv beta.
    destruct o as [m|[c|]]; [| cbn; left; exists c; reflexivity |];
      destruct (n =? 0); first [cbn; right; reflexivity | apply IH].
Qed.

Lemma translateBatch_length_aux eng lc ln w :
  match fst (translateBatch eng lc ln w) with
  | Ok ts => length ts = length eng
  | Throw _ => False
  end.
Proof.
  unfold translateBatch.
  pose proof (attempt_loop_cases (createEnhancedTranslationPrompt eng lc ln)
    (fun aiResponse => parseTranslationResponse aiResponse (length eng))
    (map (fun _ => TRANSLATION_ERROR) eng) maxRetries w) as H.
  destruct (fst _) as [ts|e]; [|exact H].
  destruct H as [[r ->] | ->].
  - apply parseTranslationResponse_length.
  - apply length_map.
Qed.

(** X1: [translateBatch] never throws and always returns exactly one entry
    per English phrase, whatever the remote model answers. *)
Theorem translateBatch_length eng lc ln w :
  match fst (translateBatch eng lc ln w) with
  | Ok ts => length ts = length eng
  | Throw _ => False
  end.
Proof. apply translateBatch_length_aux. Qed.

(** X2: [translateBatch] sends the same translation prompt once per attempt
    and stops at the first response with content: if the first [k < 3]
    outcomes carry no content and the next one does, it sends [k + 1]
    prompts and returns the parse of that response; if none of the first
    three does, it sends three prompts and returns one
    ["[TRANSLATION_ERROR]"] per phrase. The records are untouched. *)
Theorem translateBatch_attempts eng lc ln w :
  let p := createEnhancedTranslationPrompt eng lc ln in
  (forall pre r post,
     length pre < 3 -> forallb no_content pre = true ->
     w_script w = pre ++ ApiResponse (Some r) :: post ->
     translateBatch eng lc ln w
     = (Ok (parseTranslationResponse r (length eng)),
        mkWorld post (w_prompts w ++ List.repeat p (S (length pre)))
          (w_store w) (w_shuffle w) (w_nshuffle w)))
  /\ (forallb no_content (firstn 3 (w_script w)) = true ->
      translateBatch eng lc ln w
      = (Ok (map (fun _ => TRANSLATION_ERROR) eng),
         mkWorld (skipn 3 (w_script w)) (w_prompts w ++ List.repeat p 3)
           (w_store w) (w_shuffle w) (w_nshuffle w))).
Proof.
  cbv zeta. unfold translateBatch, maxRetries. split.
  - intros pre r post Hl Hn Hs.
    exact (attempt_loop_success _ (fun aiResponse => parseTranslationResponse aiResponse (length eng))
             _ _ pre r post w Hl Hn Hs).
  - intros Hn. apply attempt_loop_exhausted. exact Hn.
Qed.

(** X3: [retranslateBatch] never throws; it returns either the parse of a
    response (one entry per English phrase) or, when none of its three
    attempts yields content, the current translations unchanged, after
    sending the retranslation prompt three times. *)
Theorem retranslateBatch_result eng cur issues lc ln w :
  (match fst (retranslateBatch eng cur issues lc ln w) with
   | Ok ts => (exists r, ts = map Some (parseTranslationResponse r (length eng))
                         /\ length ts = length eng)
              \/ ts = cur
   | Throw _ => False
   end)
  /\ (forallb no_content (firstn 3 (w_script w)) = true ->
      retranslateBatch eng cur issues lc ln w
      = (Ok cur, mkWorld (skipn 3 (w_script w))
                   (w_prompts w ++ List.repeat (createRetranslationPrompt eng cur issues lc ln) 3)
                   (w_store w) (w_shuffle w) (w_nshuffle w))).
Proof.
  unfold retranslateBatch, maxRetries. split.
  - match goal with |- context [attempt_loop ?p ?f ?fb 3 w] =>
      pose proof (attempt_loop_cases p f fb 3 w) as H end.
    destruct (fst _) as [ts|e]; [|exact H].
    destruct H as [[r ->] | ->]; [left|right; reflexivity].
    exists r. split; [reflexivity|]. rewrite length_map. apply parseTranslationResponse_length.
  - intros Hn. apply attempt_loop_exhausted. exact Hn.
Qed.

(* ------------------------------------------------------------------------ *)
(** ** Batching and counting in [translateLanguage] *)

Lemma chunks_fuel_partition (n fuel : nat) (l : list nat) :
  0 < n -> length l <= fuel ->
  concat (chunks_fuel fuel n l) = l
  /\ Forall (fun b => b <> [] /\ length b <= n) (chunks_fuel fuel n l).
Proof.
  intros Hn. revert l. induction fuel as [|f IH]; intros l Hl.
  - destruct l; [split; [reflexivity | constructor] | cbn in Hl; lia].
  - destruct l as [|x l'] eqn:El; [split; [reflexivity | constructor]|].
    cbn [chunks_fuel]. rewrite <- El.
    destruct (IH (skipn n l)) as [Hc Hf].
    { rewrite length_skipn. subst l. cbn in Hl |- *. lia. }
    split.
    + cbn [concat]. rewrite Hc. apply firstn_skipn.
    + constructor; [|exact Hf]. split.
      * subst l. destruct n; [lia|]. discriminate.
      * rewrite length_firstn. lia.
Qed.

(** X4: [translateLanguage] splits the missing records into batches that,
    in order, are exactly the missing records, each batch non-empty and of
    at most [BATCH_SIZE] records. *)
Theorem chunks_partition (l : list nat) :
  concat (chunks BATCH_SIZE l) = l
  /\ Forall (fun b => b <> [] /\ length b <= BATCH_SIZE) (chunks BATCH_SIZE l).
Proof. apply chunks_fuel_partition; [unfold BATCH_SIZE; lia | lia]. Qed.

Lemma write_batch_count lc (batch : list nat) j ts c w res w' :
  write_batch lc batch j ts c w = (res, w') ->
  res = Ok (c + count_usable (firstn (length batch) (drop j ts))).
Proof.
  revert j c w. induction batch as [|r rest IH]; intros j c w H; cbn [write_batch] in H.
  - injection H as <- _. rewrite firstn_O. cbn. f_equal. lia.
  - destruct (ts !! j) as [t|] eqn:Ej.
    + rewrite (drop_S _ _ _ Ej). cbn [length]. rewrite firstn_cons. unfold count_usable.
      cbn [List.filter]. destruct (usable (Some t)).
      * unfold bind, modify at 1 in H. apply IH in H. rewrite H.
        cbn [length]. f_equal. unfold count_usable. lia.
      * apply IH in H. rewrite H. reflexivity.
    + cbn [usable truthy andb] in H. apply IH in H. rewrite H.
      apply lookup_ge_None in Ej.
      rewrite !drop_ge by (cbn; lia). destruct (length rest), (length (r :: rest)); reflexivity.
Qed.

Lemma mapM_length {A B} (f : A -> M B) (l : list A) w ys w' :
  mapM f l w = (Ok ys, w') -> length ys = length l.
Proof.
  revert w ys w'. induction l as [|x l IH]; intros w ys w' H; cbn [mapM] in H.
  - injection H as <- _. reflexivity.
  - unfold bind at 1 in H. destruct (f x w) as [[y|e] w1]; [|discriminate].
    unfold bind in H. destruct (mapM f l w1) as [[zs|e] w2] eqn:E; [|discriminate].
    injection H as <- _. cbn. f_equal. exact (IH _ _ _ E).
Qed.

Lemma translateBatch_ok_length eng lc ln w ts w' :
  translateBatch eng lc ln w = (Ok ts, w') -> length ts = length eng.
Proof.
  intros H. pose proof (translateBatch_length_aux eng lc ln w) as L.
  rewrite H in L. exact L.
Qed.

Lemma list_sum_map_le {A} (f g : A -> nat) (l : list A) :
  Forall (fun x => f x <= g x) l -> list_sum (map f l) <= list_sum (map g l).
Proof. induction 1; unfold list_sum in *; cbn; lia. Qed.

Lemma translate_batches_counts lc ln batches c acc w res w' :
  translate_batches lc ln batches c acc w = (Ok res, w') ->
  exists fresh, snd res = acc ++ fresh
    /\ map br_batch fresh = map (@length nat) batches
    /\ fst res = c + list_sum (map br_successful fresh)
    /\ Forall (fun b => br_successful b <= br_batch b) fresh.
Proof.
  revert c acc w. induction batches as [|batch rest IH]; intros c acc w H;
    cbn [translate_batches] in H.
  - injection H as <- _. exists []. rewrite app_nil_r. cbn. repeat split; [lia | constructor].
  - unfold bind at 1 in H.
    destruct (mapM _ batch w) as [[eng|e] w1] eqn:E1; [|discriminate].
    unfold bind at 1 in H.
    destruct (translateBatch eng lc ln w1) as [[ts|e] w2] eqn:E2; [|discriminate].
    unfold bind at 1 in H.
    destruct (write_batch lc batch 0 ts c w2) as [r3 w3] eqn:E3.
    apply write_batch_count in E3 as ->.
    apply IH in H as (fresh & Hs & Hb & Hc & Hf).
    pose proof (mapM_length _ _ _ _ _ E1) as L1.
    pose proof (translateBatch_ok_length _ _ _ _ _ _ E2) as L2.
    rewrite drop_0, <- L1, <- L2, firstn_all in Hc.
    exists (mkBatchResult (length batch) (count_usable ts) :: fresh). repeat split.
    + rewrite Hs, <- app_assoc. reflexivity.
    + cbn. f_equal. exact Hb.
    + rewrite Hc. unfold list_sum. cbn. unfold count_usable. lia.
    + constructor; [|exact Hf]. cbn. rewrite <- L1, <- L2. apply filter_length_le.
Qed.

(** X5: the counts that [translateLanguage] reports are consistent: the
    translated count is the sum of the batches' successful counts, every
    batch has between 1 and [BATCH_SIZE] records and at most as many
    successes as records, a "completed" run's total is the sum of its batch
    sizes, an "already_complete" run has no batches and a translated count
    of 0, and the translated count never exceeds the total. *)
Theorem translateLanguage_counts amenities lc ln w :
  match fst (translateLanguage amenities lc ln w) with
  | Ok r =>
      tr_translatedCount r = list_sum (map br_successful (tr_batchResults r))
      /\ Forall (fun b => 0 < br_batch b <= BATCH_SIZE
                          /\ br_successful b <= br_batch b) (tr_batchResults r)
      /\ (tr_status r = "completed"%string ->
          tr_totalCount r = list_sum (map br_batch (tr_batchResults r)))
      /\ (tr_status r = "already_complete"%string ->
          tr_translatedCount r = 0 /\ tr_batchResults r = [])
      /\ tr_translatedCount r <= tr_totalCount r
  | Throw _ => True
  end.
Proof.
  unfold translateLanguage, bind at 1.
  destruct (findMissingTranslations amenities lc w) as [[missing|e] w1]; [|exact I].
  destruct missing as [|m ms] eqn:Em.
  - cbn. repeat split; try constructor; try lia; discriminate.
  - rewrite <- Em. unfold bind.
    destruct (translate_batches lc ln (chunks BATCH_SIZE missing) 0 [] w1)
      as [[res|e] w2] eqn:E; [|exact I].
    cbn [fst tr_translatedCount tr_batchResults tr_status tr_totalCount].
    apply translate_batches_counts in E as (fresh & Hs & Hb & Hc & Hf).
    destruct (chunks_partition missing) as [Hcat Hch].
    assert (Hsz : list_sum (map br_batch fresh) = length missing).
    { rewrite Hb, <- length_concat, Hcat. reflexivity. }
    rewrite Hs, Hc. cbn [app]. split; [reflexivity|]. split; [|split; [|split]].
    + apply List.Forall_forall. intros b Hin. cbn [tr_batchResults] in Hin.
      pose proof (in_map br_batch _ _ Hin) as Hin'. rewrite Hb in Hin'.
      apply in_map_iff in Hin' as (bt & Heq & Hbt).
      rewrite List.Forall_forall in Hch. destruct (Hch _ Hbt) as [Hne Hle].
      rewrite List.Forall_forall in Hf. pose proof (Hf _ Hin).
      destruct bt; [congruence|]. cbn [length] in *. lia.
    + intros _. symmetry. exact Hsz.
    + discriminate.
    + cbn [tr_translatedCount tr_totalCount]. rewrite <- Hsz.
      apply list_sum_map_le. exact Hf.
Qed.

(* ------------------------------------------------------------------------ *)
(** ** Runs that select nothing *)

Lemma filter_refs_none pred refs w :
  forallb (fun r => match w_store w !! r with
                    | Some a => negb (pred a) | None => false end) refs = true ->
  filter_refs pred refs w = (Ok [], w).
Proof.
  intros H. unfold filter_refs.
  assert (Hs : forallb (fun r => match w_store w !! r with
                                 | Some _ => true | None => false end) refs = true).
  { induction refs as [|r rest IH]; [reflexivity|].
    cbn in H |- *. apply andb_prop in H as [H1 H2].
    destruct (w_store w !! r); [|discriminate]. exact (IH H2). }
  rewrite Hs. f_equal. f_equal. clear Hs.
  induction refs as [|r rest IH]; [reflexivity|].
  cbn in H |- *. apply andb_prop in H as [H1 H2].
  destruct (w_store w !! r) as [a|]; [|discriminate].
  destruct (pred a); [discriminate|]. exact (IH H2).
Qed.

(** X6: when every record already has a usable current translation (none
    is selected by [findMissingTranslations]), [translateLanguage] sends no
    prompt, changes nothing and reports "already_complete" with a translated
    count of 0 and the number of records as total. *)
Theorem translateLanguage_already_complete amenities lc ln w :
  forallb (fun r => match w_store w !! r with
                    | Some a => negb (is_missing lc a) | None => false end) amenities = true ->
  translateLanguage amenities lc ln w
  = (Ok (mkTranslateResult lc ln 0 (length amenities) "already_complete" []), w).
Proof.
  intros H. unfold translateLanguage, findMissingTranslations.
  rewrite (bind_ok _ _ _ _ _ (filter_refs_none _ _ _ H)). reflexivity.
Qed.

(** X7: when no record has a non-blank translation in the language,
    [validateLanguage] sends no prompt, does not shuffle, changes nothing and
    returns the "NO_TRANSLATIONS" report with all counts and scores 0. *)
Theorem validateLanguage_no_translations amenities lc ln n w :
  forallb (fun r => match w_store w !! r with
                    | Some a => negb (has_translation lc a) | None => false end) amenities = true ->
  validateLanguage amenities lc ln n w
  = (Ok (mkLanguageReport lc ln 0 0 0 "NO_TRANSLATIONS" [] 0 0 0 0), w).
Proof.
  intros H. unfold validateLanguage.
  rewrite (bind_ok _ _ _ _ _ (filter_refs_none _ _ _ H)). reflexivity.
Qed.

(** X8: when no record has a non-blank translation other than
    ["[TRANSLATION_FAILED]"], [validateAndRetranslateLanguage] sends no
    prompt, changes nothing and returns the "no_translations" outcome with
    average score 0. *)
Theorem validateAndRetranslateLanguage_no_translations amenities lc ln w :
  forallb (fun r => match w_store w !! r with
                    | Some a => negb (has_valid_translation lc a) | None => false end)
    amenities = true ->
  validateAndRetranslateLanguage amenities lc ln w
  = (Ok (mkLanguageOutcome lc ln 0 false "no_translations" None None None), w).
Proof.
  intros H. unfold validateAndRetranslateLanguage.
  rewrite (bind_ok _ _ _ _ _ (filter_refs_none _ _ _ H)). reflexivity.
Qed.

(** X9: every outcome of [validateAndRetranslateLanguage] reports
    [needsRetranslation = false], also when the first average score was
    below the threshold and a retranslation was made. *)
Theorem validateAndRetranslateLanguage_needsRetranslation_false amenities lc ln w :
  match fst (validateAndRetranslateLanguage amenities lc ln w) with
  | Ok o => lo_needsRetranslation o = false
  | Throw _ => True
  end.
Proof.
  unfold validateAndRetranslateLanguage, retranslate_step, bind.
  repeat (cbn beta iota;
          match goal with
          | |- context [match ?x with _ => _ end] =>
              lazymatch x with fst _ => fail | _ => destruct x end
          end); first [reflexivity | exact I].
Qed.

Lemma translateLanguage_already_complete_witness :
  forallb (fun r => match w_store five_world !! r with
                    | Some a => negb (is_missing "es" a) | None => false end) [0; 1; 2; 3; 4] = true
  /\ translateLanguage [0; 1; 2; 3; 4] "es" "Spanish" five_world
     = (Ok (mkTranslateResult "es" "Spanish" 0 5 "already_complete" []), five_world).
Proof.
  split; [vm_compute; reflexivity|].
  apply (translateLanguage_already_complete [0; 1; 2; 3; 4]). vm_compute. reflexivity.
Defined.

Lemma validateLanguage_no_translations_witness :
  forallb (fun r => match w_store failing_world !! r with
                    | Some a => negb (has_translation "es" a) | None => false end) [0; 1] = true
  /\ validateLanguage [0; 1] "es" "Spanish" 5 failing_world
     = (Ok (mkLanguageReport "es" "Spanish" 0 0 0 "NO_TRANSLATIONS" [] 0 0 0 0), failing_world).
Proof.
  split; [vm_compute; reflexivity|].
  apply validateLanguage_no_translations. vm_compute. reflexivity.
Defined.

Lemma validateAndRetranslateLanguage_no_translations_witness :
  forallb (fun r => match w_store failing_world !! r with
                    | Some a => negb (has_valid_translation "es" a) | None => false end) [0; 1] = true
  /\ validateAndRetranslateLanguage [0; 1] "es" "Spanish" failing_world
     = (Ok (mkLanguageOutcome "es" "Spanish" 0 false "no_translations" None None None),
        failing_world).
Proof.
  split; [vm_compute; reflexivity|].
  apply validateAndRetranslateLanguage_no_translations. vm_compute. reflexivity.
Defined.

(* ------------------------------------------------------------------------ *)
(** ** Effects and score ranges of [validateLanguage] *)

Lemma parse_digits_nonneg (ds : list ascii) : (0 <= parse_digits ds)%Z.
Proof.
  unfold parse_digits.
  assert (G : forall acc, (0 <= acc)%Z ->
            (0 <= fold_left (fun acc c => (10 * acc + Z.of_nat (code c - 48))%Z) ds acc)%Z).
  { induction ds as [|c ds IH]; intros acc Ha; cbn; [exact Ha|]. apply IH. lia. }
  apply G. lia.
Qed.

Lemma parse_score_nonneg (aiResponse : string) :
  (0 <= vr_score (parseEnhancedValidationResponse aiResponse))%Z.
Proof.
  unfold parseEnhancedValidationResponse. cbn [vr_score].
  destruct (match_label _ _ _); [apply parse_digits_nonneg | lia].
Qed.

Lemma extractScore_bounds (s : string) :
  (0 <= extractScoreFromAssessment s <= 19 # 2)%Q.
Proof.
  unfold extractScoreFromAssessment.
  repeat match goal with |- context [if ?b then _ else _] => destruct b end; lra.
Qed.

Lemma validateSingleTranslation_ok e t lc w v w1 :
  validateSingleTranslation e t lc w = (Ok v, w1) ->
  w_store w1 = w_store w /\ w_shuffle w1 = w_shuffle w /\ w_nshuffle w1 = w_nshuffle w
  /\ (exists p, w_prompts w1 = w_prompts w ++ [p])
  /\ (0 <= vr_score (sv_result v))%Z.
Proof.
  unfold validateSingleTranslation.
  destruct (createEnhancedValidationPrompt e t lc) as [p|msg]; [|discriminate].
  unfold bind, api_call.
  destruct (w_script w) as [|o rest];
    [| destruct o as [m|[c|]]];
    intros H; injection H as <- <-; cbn;
    (split; [reflexivity|]; split; [reflexivity|]; split; [reflexivity|];
     split; [exists p; reflexivity|]);
    first [apply parse_score_nonneg | lia].
Qed.

Lemma inject_nat_succ (n : nat) :
  (inject_Z (Z.of_nat (S n)) == inject_Z (Z.of_nat n) + 1)%Q.
Proof. rewrite Nat2Z.inj_succ. unfold Z.succ. rewrite inject_Z_plus. reflexivity. Qed.

Lemma inject_nat_nonneg (n : nat) : (0 <= inject_Z (Z.of_nat n))%Q.
Proof. unfold Qle. cbn. lia. Qed.

Lemma validate_samples_ok lc (sd : list nat) :
  forall acc tot w res tot' w',
  validate_samples lc sd acc tot w = (Ok (res, tot'), w') ->
  w_store w' = w_store w /\ w_shuffle w' = w_shuffle w /\ w_nshuffle w' = w_nshuffle w
  /\ (exists ext, w_prompts w' = w_prompts w ++ ext /\ length ext = length sd)
  /\ (totalScore tot <= totalScore tot')%Q
  /\ (forall f, In f [totalAccuracy; totalCultural; totalNatural; totalTechnical] ->
      f tot <= f tot' <= f tot + (19 # 2) * inject_Z (Z.of_nat (length sd)))%Q.
Proof.
  induction sd as [|r rest IH]; intros acc tot w res tot' w' H.
  - cbn in H. injection H as _ <- <-.
    split; [reflexivity|]. split; [reflexivity|]. split; [reflexivity|].
    split; [exists []; split; [rewrite app_nil_r; reflexivity | reflexivity]|].
    split; [lra|]. intros f _. cbn [length]. change (Z.of_nat 0) with 0%Z. change (inject_Z 0) with 0%Q.
    split; [apply Qle_refl|]. rewrite Qmult_0_r, Qplus_0_r. apply Qle_refl.
  - cbn [validate_samples] in H. unfold bind in H at 1.
    destruct (load_obj r w) as [[a|e] w1] eqn:El; [|discriminate].
    apply load_obj_world in El. subst w1.
    unfold bind in H.
    destruct (validateSingleTranslation _ _ lc w) as [[v|e] w2] eqn:Ev; [|discriminate].
    apply validateSingleTranslation_ok in Ev as (Hs2 & Hf2 & Hn2 & [p Hp2] & Hsc).
    apply IH in H as (Hs & Hf & Hn & [ext [Hp Hl]] & Hsc' & Hb).
    split; [congruence|]. split; [congruence|]. split; [congruence|].
    split.
    { exists (p :: ext). split; [rewrite Hp, Hp2, <- app_assoc; reflexivity|].
      cbn. rewrite Hl. reflexivity. }
    cbn [totalScore] in Hsc'. split.
    { assert (0 <= inject_Z (vr_score (sv_result v)))%Q
        by (unfold Qle; cbn; lia). lra. }
    intros f Hin. specialize (Hb f Hin).
    cbn [length]. rewrite inject_nat_succ.
    destruct Hin as [<-|[<-|[<-|[<-|[]]]]]; cbn [totalAccuracy totalCultural totalNatural totalTechnical] in Hb |- *;
      match type of Hb with context [extractScoreFromAssessment ?s] =>
        pose proof (extractScore_bounds s) end;
      pose proof (inject_nat_nonneg (length rest)); split; lra.
Qed.

Lemma Qdiv_nat_bounds (a k : Q) (n : nat) :
  n <> 0 -> (0 <= a <= k * inject_Z (Z.of_nat n))%Q ->
  (0 <= a / inject_Z (Z.of_nat n) <= k)%Q.
Proof.
  intros Hn [H0 H1].
  assert (Hp : (0 < inject_Z (Z.of_nat n))%Q) by (unfold Qlt; cbn; lia).
  split.
  - apply Qle_shift_div_l; [exact Hp|]. rewrite Qmult_0_l. exact H0.
  - apply Qle_shift_div_r; [exact Hp|]. exact H1.
Qed.

Lemma determineQualityLevel_not_none (s : Q) :
  determineQualityLevel s <> "NO_TRANSLATIONS"%string.
Proof.
  unfold determineQualityLevel.
  repeat match goal with |- context [if ?b then _ else _] => destruct b end; discriminate.
Qed.

(** X10: a successful [validateLanguage] never modifies a record, sends
    exactly one validation prompt per sampled record, and, when the shuffle
    keeps the length of the array (as [Array.prototype.sort] does), samples
    [min(sampleSize, totalTranslations)] records. *)
Theorem validateLanguage_effects amenities lc ln n w r w' :
  validateLanguage amenities lc ln n w = (Ok r, w') ->
  w_store w' = w_store w
  /\ (exists ext, w_prompts w' = w_prompts w ++ ext /\ length ext = lr_sampleSize r)
  /\ ((forall k l, length (w_shuffle w k l) = length l) ->
      lr_sampleSize r = Nat.min n (lr_totalTranslations r)).
Proof.
  unfold validateLanguage, bind, filter_refs.
  destruct (forallb _ amenities); [|discriminate].
  set (translated := List.filter _ amenities).
  destruct translated as [|t0 ts] eqn:Et.
  - intros H. injection H as <- <-. cbn.
    split; [reflexivity|]. split; [exists []; rewrite app_nil_r; split; reflexivity|].
    intros _. lia.
  - unfold shuffle.
    set (sampleData := firstn _ _).
    destruct (validate_samples lc sampleData [] zero_totals _) as [[[res tot']|e] w2] eqn:Hv;
      [|discriminate].
    intros H. injection H as <- <-. cbn [lr_sampleSize lr_totalTranslations].
    apply validate_samples_ok in Hv as (Hs & _ & _ & [ext [Hp Hl]] & _).
    cbn in Hs, Hp. split; [exact Hs|]. split; [exists ext; split; [exact Hp | exact Hl]|].
    intros Hsh. unfold sampleData. rewrite length_firstn, Hsh. cbn [length]. lia.
Qed.

(** X11: the report of a successful [validateLanguage] is "NO_TRANSLATIONS"
    exactly when no record has a translation, and then it has an empty sample
    and nothing happened; otherwise its quality level is that of its average
    score. With a non-empty sample the average score is non-negative and the
    four breakdown averages lie between 0 and 9.5. *)
Theorem validateLanguage_scores amenities lc ln n w r w' :
  validateLanguage amenities lc ln n w = (Ok r, w') ->
  (lr_qualityLevel r = "NO_TRANSLATIONS"%string <-> lr_totalTranslations r = 0)
  /\ (lr_totalTranslations r = 0 ->
      lr_sampleSize r = 0 /\ lr_validationResults r = [] /\ w' = w)
  /\ (lr_totalTranslations r <> 0 ->
      lr_qualityLevel r = determineQualityLevel (lr_averageScore r))
  /\ (lr_sampleSize r <> 0 ->
      (0 <= lr_averageScore r)%Q
      /\ Forall (fun q => 0 <= q <= 19 # 2)%Q
           [lr_accuracy r; lr_cultural r; lr_natural r; lr_technical r]).
Proof.
  unfold validateLanguage, bind, filter_refs.
  destruct (forallb _ amenities); [|discriminate].
  set (translated := List.filter _ amenities).
  destruct translated as [|t0 ts] eqn:Et.
  - intros H. injection H as <- <-. cbn.
    split; [split; reflexivity|]. split; [intros _; split; [reflexivity | split; reflexivity]|].
    split; [intros C; contradiction C; reflexivity | intros C; contradiction C; reflexivity].
  - unfold shuffle.
    set (sampleData := firstn _ _).
    destruct (validate_samples lc sampleData [] zero_totals _) as [[[res tot']|e] w2] eqn:Hv;
      [|discriminate].
    intros H. injection H as <- <-.
    cbn [lr_sampleSize lr_totalTranslations lr_qualityLevel lr_averageScore
         lr_accuracy lr_cultural lr_natural lr_technical snd].
    apply validate_samples_ok in Hv as (_ & _ & _ & _ & Hsc & Hb).
    cbn [totalScore zero_totals] in Hsc.
    split.
    { split; [intros C; exfalso; exact (determineQualityLevel_not_none _ C)
             | cbn [length]; discriminate]. }
    split; [cbn [length]; discriminate|].
    split; [intros _; reflexivity|].
    intros Hn. split.
    + apply Qle_shift_div_l; [unfold Qlt; cbn; lia|]. rewrite Qmult_0_l. exact Hsc.
    + assert (Hf : forall f, In f [totalAccuracy; totalCultural; totalNatural; totalTechnical] ->
                 (0 <= f tot' / inject_Z (Z.of_nat (length sampleData)) <= 19 # 2)%Q).
      { intros f Hin. apply Qdiv_nat_bounds; [exact Hn|].
        destruct (Hb f Hin) as [Hb1 Hb2].
        destruct Hin as [<-|[<-|[<-|[<-|[]]]]]; cbn [zero_totals totalAccuracy totalCultural
          totalNatural totalTechnical] in Hb1, Hb2 |- *; rewrite Qplus_0_l in Hb2; split; assumption. }
      apply List.Forall_forall. intros q Hq.
      destruct Hq as [<-|[<-|[<-|[<-|[]]]]]; apply Hf; cbn; tauto.
Qed.

Lemma validateLanguage_effects_witness :
  validateLanguage [0; 1; 2; 3; 4] "es" "Spanish" 5 five_world
    = (Ok five_report, snd (validateLanguage [0; 1; 2; 3; 4] "es" "Spanish" 5 five_world))
  /\ lr_sampleSize five_report = 5
  /\ w_store (snd (validateLanguage [0; 1; 2; 3; 4] "es" "Spanish" 5 five_world))
     = w_store five_world
  /\ (exists ext, w_prompts (snd (validateLanguage [0; 1; 2; 3; 4] "es" "Spanish" 5 five_world))
                  = w_prompts five_world ++ ext /\ length ext = lr_sampleSize five_report)
  /\ ((forall k l, length (w_shuffle five_world k l) = length l) ->
      lr_sampleSize five_report = Nat.min 5 (lr_totalTranslations five_report)).
Proof.
  assert (E : validateLanguage [0; 1; 2; 3; 4] "es" "Spanish" 5 five_world
    = (Ok five_report, snd (validateLanguage [0; 1; 2; 3; 4] "es" "Spanish" 5 five_world)))
    by (vm_compute; reflexivity).
  split; [exact E|]. split; [vm_compute; reflexivity|].
  exact (validateLanguage_effects _ _ _ _ _ _ _ E).
Defined.

Lemma validateLanguage_scores_witness :
  validateLanguage [0; 1; 2; 3; 4] "es" "Spanish" 5 five_world
    = (Ok five_report, snd (validateLanguage [0; 1; 2; 3; 4] "es" "Spanish" 5 five_world))
  /\ lr_qualityLevel five_report = "GOOD"%string
  /\ (lr_qualityLevel five_report = "NO_TRANSLATIONS"%string <-> lr_totalTranslations five_report = 0)
  /\ (lr_totalTranslations five_report = 0 ->
      lr_sampleSize five_report = 0 /\ lr_validationResults five_report = []
      /\ snd (validateLanguage [0; 1; 2; 3; 4] "es" "Spanish" 5 five_world) = five_world)
  /\ (lr_totalTranslations five_report <> 0 ->
      lr_qualityLevel five_report = determineQualityLevel (lr_averageScore five_report))
  /\ (lr_sampleSize five_report <> 0 ->
      (0 <= lr_averageScore five_report)%Q
      /\ Forall (fun q => 0 <= q <= 19 # 2)%Q
           [lr_accuracy five_report; lr_cultural five_report;
            lr_natural five_report; lr_technical five_report]).
Proof.
  assert (E : validateLanguage [0; 1; 2; 3; 4] "es" "Spanish" 5 five_world
    = (Ok five_report, snd (validateLanguage [0; 1; 2; 3; 4] "es" "Spanish" 5 five_world)))
    by (vm_compute; reflexivity).
  split; [exact E|]. split; [vm_compute; reflexivity|].
  exact (validateLanguage_scores _ _ _ _ _ _ _ E).
Defined.

(* ------------------------------------------------------------------------ *)
(** ** Parsing the validator's answer *)

Lemma list_ascii_of_string_app (s1 s2 : string) :
  list_ascii_of_string (s1 ++ s2) = list_ascii_of_string s1 ++ list_ascii_of_string s2.
Proof. induction s1 as [|c s1 IH]; [reflexivity|]. change (list_ascii_of_string (String c s1 ++ s2)) with (c :: list_ascii_of_string (s1 ++ s2)). rewrite IH. reflexivity. Qed.

Lemma search_absent {R} (p : list ascii) (k : list ascii -> option R) (l : list ascii) :
  includes_l l p = false ->
  search (fun l => if prefix_l p l then k l else None) l = None.
Proof.
  induction l as [|c l IH]; intros H; cbn in H |- *.
  - destruct (prefix_l p []); [discriminate | reflexivity].
  - apply orb_false_iff in H as [H1 H2]. rewrite H1. exact (IH H2).
Qed.

Lemma match_label_absent label g s :
  includes s label = false -> match_label label g s = None.
Proof. intros H. unfold match_label. apply search_absent. exact H. Qed.

Lemma field_or_absent label default s :
  includes s label = false -> field_or label default s = default.
Proof. intros H. unfold field_or. rewrite (match_label_absent _ _ _ H). reflexivity. Qed.

(** X12: a field whose label does not occur in the answer gets its default
    text, and an answer without "Score:" gets the score 0. *)
Theorem parseEnhancedValidationResponse_defaults (s : string) :
  (includes s "Score:" = false -> vr_score (parseEnhancedValidationResponse s) = 0%Z)
  /\ (includes s "Accuracy:" = false ->
      vr_accuracy (parseEnhancedValidationResponse s) = "No accuracy assessment"%string)
  /\ (includes s "Cultural:" = false ->
      vr_cultural (parseEnhancedValidationResponse s) = "No cultural assessment"%string)
  /\ (includes s "Natural:" = false ->
      vr_natural (parseEnhancedValidationResponse s) = "No natural flow assessment"%string)
  /\ (includes s "Technical:" = false ->
      vr_technical (parseEnhancedValidationResponse s) = "No technical assessment"%string)
  /\ (includes s "Issues:" = false ->
      vr_issues (parseEnhancedValidationResponse s) = "No issues listed"%string)
  /\ (includes s "Recommendation:" = false ->
      vr_recommendation (parseEnhancedValidationResponse s) = "No recommendation provided"%string).
Proof.
  unfold parseEnhancedValidationResponse.
  cbn [vr_score vr_accuracy vr_cultural vr_natural vr_technical vr_issues vr_recommendation].
  split; [intros H; rewrite (match_label_absent _ _ _ H); reflexivity|].
  repeat split; intros H; apply field_or_absent; exact H.
Qed.

Lemma string_of_uint_digits (d : Decimal.uint) :
  forallb is_digit (list_ascii_of_string (NilEmpty.string_of_uint d)) = true.
Proof. induction d; cbn; try reflexivity; exact IHd. Qed.

Lemma string_of_uint_value (d : Decimal.uint) (acc : nat) :
  fold_left (fun acc c => (10 * acc + Z.of_nat (code c - 48))%Z)
    (list_ascii_of_string (NilEmpty.string_of_uint d)) (Z.of_nat acc)
  = Z.of_nat (Nat.of_uint_acc d acc).
Proof.
  revert acc.
  induction d; intros acc; cbn -[Z.of_nat Nat.tail_mul Z.mul Z.add];
    try reflexivity; rewrite Nat.tail_mul_spec, <- IHd; f_equal;
    match goal with |- context [code ?c - 48] =>
      let v := eval vm_compute in (code c - 48) in change (code c - 48) with v end; lia.
Qed.

Lemma nat_to_string_value (k : nat) :
  parse_digits (list_ascii_of_string (nat_to_string k)) = Z.of_nat k.
Proof.
  unfold parse_digits, nat_to_string.
  change 0%Z with (Z.of_nat 0). rewrite string_of_uint_value.
  exact (f_equal Z.of_nat (DecimalNat.Unsigned.of_to k)).
Qed.

Lemma nat_to_string_nonempty (k : nat) : list_ascii_of_string (nat_to_string k) <> [].
Proof.
  unfold nat_to_string. intros H.
  assert (Hn : Nat.to_uint k = Decimal.Nil).
  { destruct (Nat.to_uint k); [reflexivity | discriminate ..]. }
  pose proof (DecimalNat.Unsigned.of_to k) as E. rewrite Hn in E. cbn in E.
  subst k. discriminate.
Qed.

Lemma digit_not_ws (c : ascii) : is_digit c = true -> is_ws c = false.
Proof.
  unfold is_digit, is_ws. intros H. apply andb_prop in H as [H1 H2].
  apply Nat.leb_le in H1. apply Nat.leb_le in H2.
  repeat (apply orb_false_iff; split); apply Nat.eqb_neq; lia.
Qed.

Lemma digit_run_app (ds rest : list ascii) :
  forallb is_digit ds = true ->
  match rest with c :: _ => is_digit c = false | [] => True end ->
  digit_run (ds ++ rest) = ds.
Proof.
  intros Hd Hr. induction ds as [|c ds IH]; cbn.
  - destruct rest as [|c r]; [reflexivity|]. cbn. rewrite Hr. reflexivity.
  - cbn in Hd. apply andb_prop in Hd as [H1 H2]. rewrite H1, IH by exact H2. reflexivity.
Qed.

Lemma search_first {R} (attempt : list ascii -> option R) (l : list ascii) (r : R) :
  attempt l = Some r -> search attempt l = Some r.
Proof. intros H. destruct l; cbn; rewrite H; reflexivity. Qed.

Lemma prefix_l_app (p l : list ascii) : prefix_l p (p ++ l) = true.
Proof. induction p as [|c p IH]; cbn; [reflexivity | rewrite Ascii.eqb_refl; exact IH]. Qed.

Lemma star_cons {R} (cls : ascii -> bool) (k : list ascii -> option R) c l :
  star cls k (c :: l)
  = if cls c then match star cls k l with Some r => Some r | None => k (c :: l) end
    else k (c :: l).
Proof. reflexivity. Qed.

(** X13: an answer that starts with "Score: " followed by the decimal digits
    of a number [k] of at most [2^53] (the range in which [parseInt] is
    exact), and then a non-digit or the end, gets the score [k]: the score
    is not clamped to the 1-10 scale of the prompt. *)
Theorem parseEnhancedValidationResponse_score (k : nat) (rest : string) :
  (Z.of_nat k <= 2 ^ 53)%Z ->
  match list_ascii_of_string rest with c :: _ => is_digit c = false | [] => True end ->
  vr_score (parseEnhancedValidationResponse ("Score: " ++ nat_to_string k ++ rest))
  = Z.of_nat k.
Proof.
  intros _ Hr. unfold parseEnhancedValidationResponse. cbn [vr_score]. unfold match_label.
  rewrite !list_ascii_of_string_app.
  change (list_ascii_of_string "Score: ")
    with (list_ascii_of_string "Score:" ++ [" "%char]).
  rewrite <- app_assoc.
  pose proof (nat_to_string_nonempty k) as Hne.
  pose proof (string_of_uint_digits (Nat.to_uint k)) as Hd.
  fold (nat_to_string k) in Hd.
  rewrite (search_first _ _ (list_ascii_of_string (nat_to_string k))).
  { rewrite <- nat_to_string_value. reflexivity. }
  rewrite prefix_l_app, drop_app_length. cbn [app].
  rewrite star_cons. change (is_ws " ") with true. cbv iota.
  destruct (list_ascii_of_string (nat_to_string k)) as [|d ds'] eqn:Eds;
    [contradiction Hne; reflexivity|].
  cbn in Hd. apply andb_prop in Hd as [Hd0 Hds].
  rewrite <- app_comm_cons, star_cons, (digit_not_ws _ Hd0).
  unfold digits_plus. rewrite app_comm_cons, digit_run_app; [reflexivity | | exact Hr].
  cbn. rewrite Hd0. exact Hds.
Qed.

Lemma parseEnhancedValidationResponse_score_witness :
  (Z.of_nat 42 <= 2 ^ 53)%Z /\
  vr_score (parseEnhancedValidationResponse ("Score: " ++ nat_to_string 42 ++ nl ++ "Issues: None"))
  = 42%Z.
Proof.
  split; [lia|].
  apply (parseEnhancedValidationResponse_score 42 (nl ++ "Issues: None")); [lia | cbn; reflexivity].
Defined.

(* ------------------------------------------------------------------------ *)
(** ** The totals printed by [generateSummary] *)

Lemma fold_js_add_num (f : ResultEntry -> JSNum) (g : ResultEntry -> nat) (l : list ResultEntry) q :
  Forall (fun r => f r = Num (inject_Z (Z.of_nat (g r)))) l ->
  exists q', fold_left (fun sum result => js_add sum (f result)) l (Num q) = Num q'
             /\ (q' == q + inject_Z (Z.of_nat (list_sum (map g l))))%Q.
Proof.
  intros H. revert q. induction H as [|r l Hr Hl IH]; intros q; cbn [fold_left].
  - exists q. split; [reflexivity|].
    change (inject_Z (Z.of_nat (list_sum (map g [])))) with 0%Q. rewrite Qplus_0_r. reflexivity.
  - rewrite Hr. cbn [js_add]. destruct (IH (q + inject_Z (Z.of_nat (g r))))%Q as (q' & E & Hq).
    exists q'. split; [exact E|]. rewrite Hq. cbn [map list_sum fold_right].
    change (fold_right Nat.add 0 (map g l)) with (list_sum (map g l)).
    rewrite Nat2Z.inj_add, inject_Z_plus. lra.
Qed.

Lemma fold_js_add_nan (f : ResultEntry -> JSNum) (l : list ResultEntry) x :
  Exists (fun r => f r = NaN) l ->
  fold_left (fun sum result => js_add sum (f result)) l x = NaN.
Proof.
  assert (Hn : forall l', fold_left (fun sum result => js_add sum (f result)) l' NaN = NaN).
  { induction l' as [|r l' IH]; [reflexivity|]. cbn. exact IH. }
  intros H. revert x. induction H as [r l Hr|r l _ IH]; intros x; cbn [fold_left].
  - rewrite Hr. destruct x; cbn [js_add]; apply Hn.
  - apply IH.
Qed.

(** X14: the totals [generateSummary] prints are numbers only when every
    entry that passes its filter is a translation result, and are then the
    sums of their [translatedCount] and [totalCount]; a single validation
    outcome whose status is not "quality_acceptable" (for instance
    "no_translations" or "retranslated_success"), or a single error entry,
    makes both totals NaN. *)
Theorem summary_totals_nan (results : list ResultEntry) :
  (Forall (fun r => is_translation_entry r = true -> is_RTranslation r = true) results ->
   exists q1 q2, summary_totals results = (Num q1, Num q2)
     /\ (q1 == inject_Z (Z.of_nat (list_sum (map translated_of
                                    (List.filter is_translation_entry results)))))%Q
     /\ (q2 == inject_Z (Z.of_nat (list_sum (map total_of
                                    (List.filter is_translation_entry results)))))%Q)
  /\ (Exists (fun r => is_translation_entry r = true /\ is_RTranslation r = false) results ->
      summary_totals results = (NaN, NaN)).
Proof.
  split.
  - intros H.
    assert (HF : forall f g, (forall t, f (RTranslation t) = Num (inject_Z (Z.of_nat (g (RTranslation t))))) ->
              Forall (fun r => f r = Num (inject_Z (Z.of_nat (g r)))) (List.filter is_translation_entry results)).
    { intros f g Hfg. apply List.Forall_forall. intros r Hr.
      apply filter_In in Hr as [Hin Hr]. rewrite List.Forall_forall in H.
      specialize (H r Hin Hr). destruct r; [apply Hfg | discriminate | discriminate]. }
    destruct (fold_js_add_num entry_translatedCount translated_of _ 0
                (HF _ _ (fun t => eq_refl))) as (q1 & E1 & H1).
    destruct (fold_js_add_num entry_totalCount total_of _ 0
                (HF _ _ (fun t => eq_refl))) as (q2 & E2 & H2).
    exists q1, q2. unfold summary_totals. rewrite E1, E2.
    split; [reflexivity|]. split; [rewrite H1 | rewrite H2]; lra.
  - intros H. unfold summary_totals.
    assert (HE : forall f, (forall r, is_RTranslation r = false -> f r = NaN) ->
              Exists (fun r => f r = NaN) (List.filter is_translation_entry results)).
    { intros f Hf. apply List.Exists_exists in H as (r & Hin & Hr & Hn).
      apply List.Exists_exists. exists r. split; [apply filter_In; split; assumption|].
      apply Hf, Hn. }
    rewrite !fold_js_add_nan; [reflexivity | |];
      apply HE; intros [t|o|lc ln e] Hr; first [discriminate | reflexivity].
Qed.

(* ------------------------------------------------------------------------ *)
(** ** The validation report *)

Lemma count_level_total d level :
  dist_total (count_level d level)
  = dist_total d + (if existsb (String.eqb level)
                         ["EXCELLENT"; "GOOD"; "ACCEPTABLE"; "NEEDS_IMPROVEMENT"]%string
                    then 1 else 0).
Proof.
  unfold count_level, dist_total. cbn [existsb].
  destruct (String.eqb level "EXCELLENT"); cbn; [lia|].
  destruct (String.eqb level "GOOD"); cbn; [lia|].
  destruct (String.eqb level "ACCEPTABLE"); cbn; [lia|].
  destruct (String.eqb level "NEEDS_IMPROVEMENT"); cbn; lia.
Qed.

Lemma report_loop_spec (log : list LanguageReport) s t d :
  let '(s', t', d') := report_loop log s t d in
  (s' == s + weighted_sum log)%Q
  /\ t' = t + list_sum (map lr_sampleSize log)
  /\ dist_total d' = dist_total d
       + length (List.filter (fun r => existsb (String.eqb (lr_qualityLevel r))
                   ["EXCELLENT"; "GOOD"; "ACCEPTABLE"; "NEEDS_IMPROVEMENT"]%string) log).
Proof.
  revert s t d. induction log as [|r log IH]; intros s t d; cbn [report_loop].
  - split; [unfold weighted_sum; cbn; lra|]. cbn. split; lia.
  - specialize (IH (s + lr_averageScore r * inject_Z (Z.of_nat (lr_sampleSize r)))%Q
                   (t + lr_sampleSize r) (count_level d (lr_qualityLevel r))).
    destruct (report_loop _ _ _ _) as [[s' t'] d'].
    destruct IH as (Hs & Ht & Hd). split; [|split].
    + rewrite Hs. unfold weighted_sum; cbn [fold_right]. fold (weighted_sum log). lra.
    + rewrite Ht. cbn [map list_sum fold_right]. unfold list_sum. lia.
    + rewrite Hd, count_level_total. cbn [List.filter].
      destruct (existsb _ _); cbn [length]; lia.
Qed.

Lemma weighted_sum_zero (log : list LanguageReport) :
  list_sum (map lr_sampleSize log) = 0 -> (weighted_sum log == 0)%Q.
Proof.
  induction log as [|r log IH]; intros H; [reflexivity|].
  cbn [map list_sum fold_right] in H. unfold list_sum in IH.
  unfold weighted_sum; cbn [fold_right]. fold (weighted_sum log).
  rewrite IH by lia. replace (lr_sampleSize r) with 0 by lia.
  change (inject_Z (Z.of_nat 0)) with 0%Q. ring.
Qed.

(** X15: the report data of [generateEnhancedValidationReport] holds the
    whole log, counts as validations the sum of the sample sizes, and gives
    as overall score the average of the language averages weighted by their
    sample sizes; with no validation at all (an empty log, or only empty
    samples) the overall score is NaN (0/0). The four quality counts add up
    to the number of reports whose level is one of the four levels. *)
Theorem generateEnhancedValidationReport_totals (log : list LanguageReport) :
  let d := generateEnhancedValidationReport log in
  rd_languageResults d = log
  /\ rd_totalValidations d = list_sum (map lr_sampleSize log)
  /\ (rd_totalValidations d = 0 -> rd_overallScore d = NaN)
  /\ (rd_totalValidations d <> 0 ->
      exists q, rd_overallScore d = Num q
        /\ (q == weighted_sum log / inject_Z (Z.of_nat (rd_totalValidations d)))%Q)
  /\ dist_total (rd_qualityDistribution d)
     = length (List.filter (fun r => existsb (String.eqb (lr_qualityLevel r))
                 ["EXCELLENT"; "GOOD"; "ACCEPTABLE"; "NEEDS_IMPROVEMENT"]%string) log).
Proof.
  cbv zeta. unfold generateEnhancedValidationReport.
  pose proof (report_loop_spec log 0 0 (mkQualityDistribution 0 0 0 0)) as H.
  destruct (report_loop _ _ _ _) as [[s t] dd].
  destruct H as (Hs & Ht & Hd). cbn [rd_languageResults rd_totalValidations
    rd_overallScore rd_qualityDistribution].
  rewrite Qplus_0_l in Hs. cbn in Ht.
  split; [reflexivity|]. split; [exact Ht|]. split; [|split].
  - intros H0. unfold js_div. rewrite H0. cbn [Qeq_bool].
    change (Qeq_bool (inject_Z (Z.of_nat 0)) 0) with true. cbv iota.
    rewrite Ht in H0. rewrite (proj2 (Qeq_bool_iff s 0)); [reflexivity|].
    rewrite Hs. apply weighted_sum_zero. exact H0.
  - intros H0. unfold js_div.
    destruct (Qeq_bool (inject_Z (Z.of_nat t)) 0) eqn:E.
    + apply Qeq_bool_iff in E. unfold Qeq in E. cbn in E. lia.
    + eexists. split; [reflexivity|]. rewrite Hs. reflexivity.
  - rewrite Hd. reflexivity.
Qed.

(* ------------------------------------------------------------------------ *)
(** ** The results of [translateAllLanguages] *)

Ltac run_cases :=
  repeat (cbn beta iota;
          match goal with
          | |- context [match ?x with _ => _ end] =>
              lazymatch x with fst _ => fail | _ => destruct x end
          end).

Lemma translateLanguage_code amenities lc ln w :
  match fst (translateLanguage amenities lc ln w) with
  | Ok t => tr_languageCode t = lc
  | Throw _ => True
  end.
Proof. unfold translateLanguage, bind. run_cases; first [reflexivity | exact I]. Qed.

Lemma validateAndRetranslateLanguage_code amenities lc ln w :
  match fst (validateAndRetranslateLanguage amenities lc ln w) with
  | Ok o => lo_languageCode o = lc
  | Throw _ => True
  end.
Proof.
  unfold validateAndRetranslateLanguage, retranslate_step, bind.
  run_cases; first [reflexivity | exact I].
Qed.

Lemma translate_languages_shape amenities (codes : list string) :
  forall acc w,
  match fst (translate_languages amenities codes acc w) with
  | Ok res => exists blocks, res = acc ++ concat blocks /\ Forall2 language_block codes blocks
  | Throw _ => False
  end.
Proof.
  induction codes as [|lc rest IH]; intros acc w; cbn [translate_languages].
  - exists []. split; [rewrite app_nil_r; reflexivity | constructor].
  - pose proof (translateLanguage_code amenities lc (js_display (LANGUAGE_NAMES !! lc)) w) as C1.
    destruct (translateLanguage _ _ _ w) as [[t|e] w1]; cbn [fst] in C1.
    + pose proof (validateAndRetranslateLanguage_code amenities lc
                    (js_display (LANGUAGE_NAMES !! lc)) w1) as C2.
      destruct (validateAndRetranslateLanguage _ _ _ w1) as [[o|e] w2]; cbn [fst] in C2.
      * specialize (IH (acc ++ [RTranslation t; RValidation o]) w2).
        destruct (fst _) as [res|e]; [|exact IH].
        destruct IH as (blocks & -> & Hb).
        exists ([RTranslation t; RValidation o] :: blocks). split.
        -- rewrite <- app_assoc. reflexivity.
        -- constructor; [|exact Hb]. left. exists t, o. auto.
      * specialize (IH (acc ++ [RTranslation t; RError lc (js_display (LANGUAGE_NAMES !! lc)) e]) w2).
        destruct (fst _) as [res|e']; [|exact IH].
        destruct IH as (blocks & -> & Hb).
        exists ([RTranslation t; RError lc (js_display (LANGUAGE_NAMES !! lc)) e] :: blocks).
        split.
        -- rewrite <- app_assoc. reflexivity.
        -- constructor; [|exact Hb]. right. right. exists t, e. auto.
    + specialize (IH (acc ++ [RError lc (js_display (LANGUAGE_NAMES !! lc)) e]) w1).
      destruct (fst _) as [res|e']; [|exact IH].
      destruct IH as (blocks & -> & Hb).
      exists ([RError lc (js_display (LANGUAGE_NAMES !! lc)) e] :: blocks). split.
      * rewrite <- app_assoc. reflexivity.
      * constructor; [|exact Hb]. right. left. exists e. reflexivity.
Qed.

(** X16: [translateAllLanguages] never throws; its results are, language by
    language in the order of [LANGUAGE_NAMES], a translation result and a
    validation outcome for that language, or an error entry alone (the
    translation threw), or a translation result and an error entry (the
    validation threw). *)
Theorem translateAllLanguages_shape amenities w :
  match fst (translateAllLanguages amenities w) with
  | Ok results => exists blocks, results = concat blocks
                                 /\ Forall2 language_block languageCodes blocks
  | Throw _ => False
  end.
Proof. exact (translate_languages_shape amenities languageCodes [] w). Qed.

(* ------------------------------------------------------------------------ *)
(** ** Runs on consistent data do not throw *)

Create HintDb stable.

Lemma stable_refl : forall w, stable_rel w w.
Proof. intros w. split; reflexivity. Qed.

Lemma stable_trans : forall w1 w2 w3, stable_rel w1 w2 -> stable_rel w2 w3 -> stable_rel w1 w3.
Proof. unfold stable_rel. intros w1 w2 w3 [H1 H2] [H3 H4]. split; congruence. Qed.

Lemma stable_api_call prompt : frame stable_rel (api_call prompt).
Proof.
  intros w res w' H. unfold api_call in H.
  destruct (w_script w); injection H as _ <-; split; reflexivity.
Qed.

Lemma stable_load_obj r : frame stable_rel (load_obj r).
Proof. intros w res w' H. apply load_obj_world in H. subst. apply stable_refl. Qed.

Lemma stable_filter_refs pred refs : frame stable_rel (filter_refs pred refs).
Proof.
  intros w res w' H. unfold filter_refs in H.
  destruct (forallb _ refs); injection H as _ <-; apply stable_refl.
Qed.

Lemma stable_shuffle l : frame stable_rel (shuffle l).
Proof. intros w res w' H. injection H as _ <-. split; reflexivity. Qed.

Lemma stable_modify r f : True -> frame stable_rel (modify r f).
Proof.
  intros _ w res w' H. injection H as _ <-. split; [reflexivity|]. cbn. apply length_alter.
Qed.

#[local] Hint Resolve stable_refl stable_trans stable_api_call stable_load_obj
  stable_filter_refs stable_shuffle stable_modify : stable.

Lemma stable_validateLanguage refs lc ln n : frame stable_rel (validateLanguage refs lc ln n).
Proof. apply frame_validateLanguage; eauto with stable. Qed.

Lemma stable_attempt_loop {A} prompt (parse : string -> list A) fallback n :
  frame stable_rel (attempt_loop prompt parse fallback n).
Proof. apply frame_attempt_loop; eauto with stable. Qed.

Lemma stable_ret {A} (a : A) : frame stable_rel (ret a).
Proof. apply frame_ret; eauto with stable. Qed.

Lemma stable_bind {A B} (m : M A) (k : A -> M B) :
  frame stable_rel m -> (forall a, frame stable_rel (k a)) -> frame stable_rel (bind m k).
Proof. apply frame_bind; eauto with stable. Qed.

Lemma stable_translate_batches lc ln batches c acc :
  frame stable_rel (translate_batches lc ln batches c acc).
Proof.
  apply (frame_translate_batches _ stable_refl stable_trans (fun _ => True)); eauto with stable.
Qed.

Lemma stable_write_improved lc refs i imp : frame stable_rel (write_improved lc refs i imp).
Proof.
  apply (frame_write_improved _ stable_refl stable_trans (fun _ => True)); eauto with stable.
Qed.

Lemma stable_mapM_load_obj refs : frame stable_rel (mapM load_obj refs).
Proof. apply frame_mapM; eauto with stable. Qed.

Lemma stable_translateLanguage amenities lc ln : frame stable_rel (translateLanguage amenities lc ln).
Proof.
  unfold translateLanguage.
  apply stable_bind; [apply stable_filter_refs|]. intros missing.
  destruct missing; [apply stable_ret|].
  apply stable_bind; [apply stable_translate_batches|]. intros. apply stable_ret.
Qed.

Lemma stable_validateAndRetranslateLanguage amenities lc ln :
  frame stable_rel (validateAndRetranslateLanguage amenities lc ln).
Proof.
  unfold validateAndRetranslateLanguage, retranslate_step.
  apply stable_bind; [apply stable_filter_refs|]. intros translated.
  destruct translated; [apply stable_ret|].
  apply stable_bind; [apply stable_validateLanguage|]. intros report.
  destruct (needsRetranslation _); [|apply stable_ret].
  apply stable_bind; [apply stable_mapM_load_obj|]. intros rows.
  apply stable_bind; [apply stable_attempt_loop|]. intros imp.
  apply stable_bind; [apply stable_write_improved|]. intros _.
  apply stable_bind; [apply stable_validateLanguage|]. intros report2.
  destruct (Qle_bool _ _); apply stable_ret.
Qed.

Lemma refs_ok_stable w w' refs : stable_rel w w' -> refs_ok w refs -> refs_ok w' refs.
Proof. intros [_ Hl] H r Hr. rewrite Hl. exact (H r Hr). Qed.

Lemma refs_ok_incl w refs refs' :
  refs_ok w refs -> (forall r, In r refs' -> In r refs) -> refs_ok w refs'.
Proof. intros H Hi r Hr. exact (H r (Hi r Hr)). Qed.

Lemma refs_ok_lookup w r : r < length (w_store w) -> exists a, w_store w !! r = Some a.
Proof. intros H. apply lookup_lt_is_Some_2 in H as [a Ha]. exists a. exact Ha. Qed.

Lemma filter_refs_total pred refs w :
  refs_ok w refs ->
  exists l, filter_refs pred refs w = (Ok l, w) /\ (forall r, In r l -> In r refs).
Proof.
  intros H. unfold filter_refs.
  replace (forallb _ refs) with true.
  - eexists. split; [reflexivity|]. intros r Hr. apply filter_In in Hr as [Hr _]. exact Hr.
  - symmetry. apply forallb_forall. intros r Hr.
    destruct (refs_ok_lookup w r (H r Hr)) as [a Ha]. rewrite Ha. reflexivity.
Qed.

Lemma load_obj_total r w : r < length (w_store w) -> exists a, load_obj r w = (Ok a, w).
Proof.
  intros H. destruct (refs_ok_lookup w r H) as [a Ha]. exists a.
  unfold load_obj. rewrite Ha. reflexivity.
Qed.

Lemma createEnhancedValidationPrompt_known e t lc :
  is_Some (LANGUAGE_NAMES !! lc) -> exists p, createEnhancedValidationPrompt e t lc = Ok p.
Proof.
  intros [n Hn]. unfold createEnhancedValidationPrompt. rewrite Hn. eexists. reflexivity.
Qed.

Lemma validateSingleTranslation_total e t lc w :
  is_Some (LANGUAGE_NAMES !! lc) -> exists v w', validateSingleTranslation e t lc w = (Ok v, w').
Proof.
  intros Hk. destruct (createEnhancedValidationPrompt_known e t lc Hk) as [p Hp].
  unfold validateSingleTranslation. rewrite Hp.
  destruct (api_call_ok p w) as (o & w1 & Hc & _). rewrite (bind_ok _ _ _ _ _ Hc).
  destruct o as [m|[c|]]; eexists; eexists; reflexivity.
Qed.

Lemma validate_samples_total_ok lc (sd : list nat) :
  is_Some (LANGUAGE_NAMES !! lc) ->
  forall acc tot w, refs_ok w sd ->
  exists res w', validate_samples lc sd acc tot w = (Ok res, w').
Proof.
  intros Hk. induction sd as [|r rest IH]; intros acc tot w Hr; cbn [validate_samples].
  - eexists; eexists; reflexivity.
  - destruct (load_obj_total r w (Hr r (or_introl eq_refl))) as [a Ha].
    rewrite (bind_ok _ _ _ _ _ Ha).
    destruct (validateSingleTranslation_total (englishText a) (current_translation a lc) lc w Hk)
      as (v & w1 & Hv).
    rewrite (bind_ok _ _ _ _ _ Hv).
    apply validateSingleTranslation_ok in Hv as (Hs & _).
    apply IH. intros r' Hr'. rewrite Hs. apply Hr. right. exact Hr'.
Qed.

Lemma in_firstn {A} (x : A) k l : In x (firstn k l) -> In x l.
Proof.
  revert l. induction k as [|k IH]; intros [|y l] H; cbn in H; try contradiction.
  destruct H as [<-|H]; [left; reflexivity|right; exact (IH l H)].
Qed.

Lemma validateLanguage_total refs lc ln n w :
  refs_ok w refs -> perm_shuffle w -> is_Some (LANGUAGE_NAMES !! lc) ->
  exists r w', validateLanguage refs lc ln n w = (Ok r, w').
Proof.
  intros Hr Hp Hk. unfold validateLanguage.
  destruct (filter_refs_total (has_translation lc) refs w Hr) as (l & Hf & Hi).
  rewrite (bind_ok _ _ _ _ _ Hf).
  destruct l as [|t0 ts]; [eexists; eexists; reflexivity|].
  unfold bind at 1, shuffle.
  set (sampleData := firstn _ _).
  destruct (validate_samples_total_ok lc sampleData Hk [] zero_totals
              (mkWorld (w_script w) (w_prompts w) (w_store w) (w_shuffle w) (S (w_nshuffle w))))
    as (res & w' & Hv).
  { intros r Hin. cbn. apply Hr, Hi.
    unfold sampleData in Hin. apply in_firstn in Hin.
    apply (Permutation_in _ (Hp (w_nshuffle w) (t0 :: ts))). exact Hin. }
  unfold bind. rewrite Hv. destruct res. eexists; eexists; reflexivity.
Qed.

Lemma perm_shuffle_stable w w' : stable_rel w w' -> perm_shuffle w -> perm_shuffle w'.
Proof. intros [Hs _] H k l. rewrite Hs. apply H. Qed.

Lemma mapM_total {A B} (f : A -> M B) (l : list A) w :
  (forall x, In x l -> exists y, f x w = (Ok y, w)) ->
  exists ys, mapM f l w = (Ok ys, w).
Proof.
  induction l as [|x l IH]; intros Hf; cbn [mapM].
  - exists []. reflexivity.
  - destruct (Hf x (or_introl eq_refl)) as [y Hy].
    destruct IH as [ys Hys]; [intros x' Hx'; apply Hf; right; exact Hx'|].
    exists (y :: ys). rewrite (bind_ok _ _ _ _ _ Hy), (bind_ok _ _ _ _ _ Hys). reflexivity.
Qed.

Lemma translateBatch_total eng lc ln w :
  exists ts w', translateBatch eng lc ln w = (Ok ts, w') /\ stable_rel w w'.
Proof.
  pose proof (translateBatch_length_aux eng lc ln w) as L.
  destruct (translateBatch eng lc ln w) as [[ts|e] w'] eqn:E; [|contradiction].
  exists ts, w'. split; [reflexivity|].
  exact (stable_attempt_loop _ _ _ _ _ _ _ E).
Qed.

Lemma write_batch_total lc (batch : list nat) j ts c w :
  exists k w', write_batch lc batch j ts c w = (Ok k, w') /\ stable_rel w w'.
Proof.
  destruct (write_batch lc batch j ts c w) as [res w'] eqn:E.
  assert (Hs : stable_rel w w').
  { revert E. apply (frame_write_batch _ stable_refl stable_trans (fun _ => True)); eauto with stable. }
  apply write_batch_count in E. subst res. eexists; eexists; split; [reflexivity|exact Hs].
Qed.

Lemma translate_batches_total lc ln (batches : list (list nat)) :
  forall c acc w,
  (forall b r, In b batches -> In r b -> r < length (w_store w)) ->
  exists res w', translate_batches lc ln batches c acc w = (Ok res, w').
Proof.
  induction batches as [|b rest IH]; intros c acc w Hb; cbn [translate_batches].
  - eexists; eexists; reflexivity.
  - destruct (mapM_total (fun r => let* a := load_obj r in ret (englishText a)) b w)
      as [phrases Hp].
    { intros r Hr. destruct (load_obj_total r w (Hb b r (or_introl eq_refl) Hr)) as [a Ha].
      exists (englishText a). rewrite (bind_ok _ _ _ _ _ Ha). reflexivity. }
    rewrite (bind_ok _ _ _ _ _ Hp).
    destruct (translateBatch_total phrases lc ln w) as (ts & w1 & Ht & Hs1).
    rewrite (bind_ok _ _ _ _ _ Ht).
    destruct (write_batch_total lc b 0 ts c w1) as (k & w2 & Hw & Hs2).
    rewrite (bind_ok _ _ _ _ _ Hw).
    apply IH. intros b' r Hb' Hr.
    destruct (stable_trans _ _ _ Hs1 Hs2) as [_ ->]. apply (Hb b'); [right|]; assumption.
Qed.

Lemma translateLanguage_total amenities lc ln w :
  refs_ok w amenities -> exists t w', translateLanguage amenities lc ln w = (Ok t, w').
Proof.
  intros Hr. unfold translateLanguage, findMissingTranslations.
  destruct (filter_refs_total (is_missing lc) amenities w Hr) as (l & Hf & Hi).
  rewrite (bind_ok _ _ _ _ _ Hf).
  destruct l as [|r0 l]; [eexists; eexists; reflexivity|].
  destruct (translate_batches_total lc ln (chunks BATCH_SIZE (r0 :: l)) 0 [] w) as (res & w' & E).
  { intros b r Hb Hrb. apply Hr, Hi. exact (chunks_fuel_incl _ _ _ b r Hb Hrb). }
  rewrite (bind_ok _ _ _ _ _ E). eexists; eexists; reflexivity.
Qed.

Lemma write_improved_total lc (refs : list nat) :
  forall i imp w, exists w', write_improved lc refs i imp w = (Ok tt, w').
Proof.
  induction refs as [|r rest IH]; intros i imp w; cbn [write_improved].
  - eexists; reflexivity.
  - unfold bind at 1, modify at 1. apply IH.
Qed.

(** C2: when the first validation average is below 8.5, so that the
    retranslation is triggered, the run loads the selected records, obtains
    the retranslated texts [improved] from [retranslateBatch] and writes them
    back; if the re-validation that follows averages below 8.5 as well, the
    run returns the status [retranslation_failed_kept_original], and every
    selected record (the references being distinct) holds in the final store
    the text the retranslation returned for it: no rollback happens. *)
Theorem validateAndRetranslateLanguage_no_rollback amenities lc ln w translated report w1 :
  NoDup amenities ->
  filter_refs (has_valid_translation lc) amenities w = (Ok translated, w) ->
  translated <> [] ->
  validateLanguage translated lc ln 5 w = (Ok report, w1) ->
  (lr_averageScore report < QUALITY_THRESHOLD)%Q ->
  exists rows improved w2 w3,
    mapM load_obj translated w1 = (Ok rows, w1)
    /\ retranslateBatch (map englishText rows)
         (map (fun a => current_translation a lc) rows)
         (collect_issues (lr_validationResults report)) lc ln w1 = (Ok improved, w2)
    /\ write_improved lc translated 0 improved w2 = (Ok tt, w3)
    /\ forall rv w4,
       validateLanguage translated lc ln 5 w3 = (Ok rv, w4) ->
       (lr_averageScore rv < QUALITY_THRESHOLD)%Q ->
       validateAndRetranslateLanguage amenities lc ln w
       = (Ok (mkLanguageOutcome lc ln (lr_averageScore rv) false
                "retranslation_failed_kept_original" (Some (lr_averageScore report))
                (Some (lr_averageScore rv)) (Some (lr_validationResults report))), w4)
       /\ forall k r, translated !! k = Some r ->
          exists a, w_store w4 !! r = Some a /\ nameAll_at a lc = mjoin (improved !! k).
Proof.
  intros Hnd Hf Hne Hv Hlow.
  destruct (filter_refs_ok _ _ _ _ _ Hf) as (_ & Htr & Hsel).
  assert (Hval1 : forall r, In r translated -> exists a, w_store w1 !! r = Some a).
  { intros r Hr. destruct (Hsel r Hr) as (a & Ha & _). exists a.
    rewrite (keeps_validateLanguage r _ _ _ _ _ _ _ Hv). exact Ha. }
  destruct (mapM_load_obj_ok _ _ Hval1) as [rows Hrows].
  destruct (retranslateBatch (map englishText rows)
              (map (fun a => current_translation a lc) rows)
              (collect_issues (lr_validationResults report)) lc ln w1)
    as [[imp|err] w2] eqn:Er.
  2:{ exfalso. unfold retranslateBatch in Er. cbv zeta in Er.
      match type of Er with attempt_loop ?p ?f ?fb ?n ?ww = _ =>
        pose proof (attempt_loop_cases p f fb n ww) as L end.
      rewrite Er in L. exact L. }
  destruct (write_improved_total lc translated 0 imp w2) as [w3 Hw].
  exists rows, imp, w2, w3.
  split; [exact Hrows|]. split; [exact Er|]. split; [exact Hw|].
  intros rv w4 Hv2 Hlow2. split.
  - unfold validateAndRetranslateLanguage. rewrite (bind_ok _ _ _ _ _ Hf).
    destruct translated as [|r0 t]; [contradiction|]. cbv beta iota.
    rewrite (bind_ok _ _ _ _ _ Hv). unfold retranslate_step. cbv zeta.
    rewrite (proj2 (needsRetranslation_iff _) Hlow).
    rewrite (bind_ok _ _ _ _ _ Hrows), (bind_ok _ _ _ _ _ Er), (bind_ok _ _ _ _ _ Hw),
      (bind_ok _ _ _ _ _ Hv2).
    destruct (Qle_bool QUALITY_THRESHOLD (lr_averageScore rv)) eqn:Eq; [|reflexivity].
    apply Qle_bool_iff in Eq. exfalso. exact (Qlt_not_le _ _ Hlow2 Eq).
  - assert (Hnd' : NoDup translated).
    { rewrite Htr. apply NoDup_ListNoDup, List.NoDup_filter, NoDup_ListNoDup, Hnd. }
    intros k r Hk.
    assert (Hin : In r translated)
      by (apply list_elem_of_In; eapply list_elem_of_lookup_2; exact Hk).
    destruct (Hsel r Hin) as (a & Ha & _).
    exists (set_nameAll lc (mjoin (imp !! k)) a). split.
    + rewrite (keeps_validateLanguage r _ _ _ _ _ _ _ Hv2).
      rewrite (write_improved_spec _ _ _ _ _ _ _ Hnd' Hw k r Hk).
      rewrite (keeps_retranslateBatch r _ _ _ _ _ _ _ _ Er).
      rewrite (keeps_validateLanguage r _ _ _ _ _ _ _ Hv).
      rewrite Ha. reflexivity.
    + apply nameAll_at_set_nameAll.
Qed.

Lemma validateAndRetranslateLanguage_no_rollback_witness :
  (lr_averageScore low_report < QUALITY_THRESHOLD)%Q
  /\ lo_status low_outcome = "retranslation_failed_kept_original"
  /\ map (fun a => nameAll_at a "es")
       (w_store (snd (validateAndRetranslateLanguage [0] "es" "Spanish" low_world)))
     = [Some "Nuevo"]%string
  /\ exists rows improved w2 w3,
    mapM load_obj [0] (snd (validateLanguage [0] "es" "Spanish" 5 low_world)) = (Ok rows, snd (validateLanguage [0] "es" "Spanish" 5 low_world))
    /\ retranslateBatch (map englishText rows)
         (map (fun a => current_translation a "es") rows)
         (collect_issues (lr_validationResults low_report)) "es" "Spanish"
         (snd (validateLanguage [0] "es" "Spanish" 5 low_world)) = (Ok improved, w2)
    /\ write_improved "es" [0] 0 improved w2 = (Ok tt, w3)
    /\ improved = [Some "Nuevo"]%string
    /\ (exists rv w4, validateLanguage [0] "es" "Spanish" 5 w3 = (Ok rv, w4)
                      /\ (lr_averageScore rv == 6)%Q)
    /\ forall rv w4,
       validateLanguage [0] "es" "Spanish" 5 w3 = (Ok rv, w4) ->
       (lr_averageScore rv < QUALITY_THRESHOLD)%Q ->
       validateAndRetranslateLanguage [0] "es" "Spanish" low_world
       = (Ok (mkLanguageOutcome "es" "Spanish" (lr_averageScore rv) false
                "retranslation_failed_kept_original" (Some (lr_averageScore low_report))
                (Some (lr_averageScore rv)) (Some (lr_validationResults low_report))), w4)
       /\ forall k r, [0] !! k = Some r ->
          exists a, w_store w4 !! r = Some a /\ nameAll_at a "es" = mjoin (improved !! k).
Proof.
  split; [vm_compute; reflexivity|]. split; [vm_compute; reflexivity|].
  split; [vm_compute; reflexivity|].
  destruct (validateAndRetranslateLanguage_no_rollback [0] "es" "Spanish" low_world [0]
              low_report (snd (validateLanguage [0] "es" "Spanish" 5 low_world)))
    as (rows & imp & w2 & w3 & Hrows & Er & Hw & K).
  - apply NoDup_singleton.
  - vm_compute. reflexivity.
  - discriminate.
  - vm_compute. reflexivity.
  - vm_compute. reflexivity.
  - exists rows, imp, w2, w3.
    split; [exact Hrows|]. split; [exact Er|]. split; [exact Hw|].
    vm_compute in Hrows. injection Hrows as <-.
    vm_compute in Er. injection Er as <- <-.
    vm_compute in Hw. injection Hw as <-.
    split; [reflexivity|]. split; [|exact K].
    eexists; eexists; split; [vm_compute; reflexivity | vm_compute; reflexivity].
Defined.

Lemma retranslate_step_total refs lc ln report w :
  refs_ok w refs -> perm_shuffle w -> is_Some (LANGUAGE_NAMES !! lc) ->
  exists o w', retranslate_step refs lc ln report w = (Ok o, w').
Proof.
  intros Hr Hp Hk. unfold retranslate_step.
  destruct (needsRetranslation _); [|eexists; eexists; reflexivity].
  destruct (mapM_load_obj_ok refs w) as [rows Hrows].
  { intros r Hin. exact (refs_ok_lookup w r (Hr r Hin)). }
  rewrite (bind_ok _ _ _ _ _ Hrows).
  unfold retranslateBatch.
  match goal with |- context [attempt_loop ?p ?f ?fb ?n] =>
    pose proof (attempt_loop_cases p f fb n w) as L;
    destruct (attempt_loop p f fb n w) as [[imp|e] w1] eqn:E; [|contradiction];
    pose proof (stable_attempt_loop p f fb n w _ _ E) as Hs1 end.
  rewrite (bind_ok _ _ _ _ _ E).
  destruct (write_improved_total lc refs 0 imp w1) as [w2 Hw].
  pose proof (stable_write_improved lc refs 0 imp w1 _ _ Hw) as Hs2.
  rewrite (bind_ok _ _ _ _ _ Hw).
  pose proof (stable_trans _ _ _ Hs1 Hs2) as Hs.
  destruct (validateLanguage_total refs lc ln 5 w2 (refs_ok_stable _ _ _ Hs Hr)
              (perm_shuffle_stable _ _ Hs Hp) Hk) as (r2 & w3 & Hv).
  rewrite (bind_ok _ _ _ _ _ Hv).
  destruct (Qle_bool _ _); eexists; eexists; reflexivity.
Qed.

Lemma validateAndRetranslateLanguage_total amenities lc ln w :
  refs_ok w amenities -> perm_shuffle w -> is_Some (LANGUAGE_NAMES !! lc) ->
  exists o w', validateAndRetranslateLanguage amenities lc ln w = (Ok o, w').
Proof.
  intros Hr Hp Hk. unfold validateAndRetranslateLanguage.
  destruct (filter_refs_total (has_valid_translation lc) amenities w Hr) as (l & Hf & Hi).
  rewrite (bind_ok _ _ _ _ _ Hf).
  destruct l as [|r0 l]; [eexists; eexists; reflexivity|].
  assert (Hl : refs_ok w (r0 :: l)) by (intros r Hin; apply Hr, Hi, Hin).
  destruct (validateLanguage_total (r0 :: l) lc ln 5 w Hl Hp Hk) as (rep & w1 & Hv).
  pose proof (stable_validateLanguage _ _ _ _ _ _ _ Hv) as Hs.
  rewrite (bind_ok _ _ _ _ _ Hv).
  apply retranslate_step_total; [exact (refs_ok_stable _ _ _ Hs Hl)
                                | exact (perm_shuffle_stable _ _ Hs Hp) | exact Hk].
Qed.

Lemma languageCodes_known : Forall (fun lc => is_Some (LANGUAGE_NAMES !! lc)) languageCodes.
Proof. apply (bool_decide_unpack _). vm_compute. reflexivity. Qed.

Lemma translate_languages_total amenities (codes : list string) :
  Forall (fun lc => is_Some (LANGUAGE_NAMES !! lc)) codes ->
  forall acc w, refs_ok w amenities -> perm_shuffle w ->
  exists blocks w', translate_languages amenities codes acc w = (Ok (acc ++ concat blocks), w')
    /\ Forall2 (fun lc b => exists t o, b = [RTranslation t; RValidation o]
                                       /\ tr_languageCode t = lc /\ lo_languageCode o = lc)
         codes blocks
    /\ stable_rel w w'.
Proof.
  induction codes as [|lc rest IH]; intros Hk acc w Hr Hp; cbn [translate_languages].
  - exists [], w. rewrite app_nil_r. split; [reflexivity|]. split; [constructor|apply stable_refl].
  - apply Forall_cons in Hk as [Hk Hks].
    set (ln := js_display (LANGUAGE_NAMES !! lc)).
    pose proof (translateLanguage_code amenities lc ln w) as C1.
    destruct (translateLanguage_total amenities lc ln w Hr) as (t & w1 & E1).
    pose proof (stable_translateLanguage amenities lc ln w _ _ E1) as S1.
    rewrite E1. rewrite E1 in C1. cbn [fst] in C1.
    pose proof (validateAndRetranslateLanguage_code amenities lc ln w1) as C2.
    destruct (validateAndRetranslateLanguage_total amenities lc ln w1
                (refs_ok_stable _ _ _ S1 Hr) (perm_shuffle_stable _ _ S1 Hp) Hk) as (o & w2 & E2).
    pose proof (stable_validateAndRetranslateLanguage amenities lc ln w1 _ _ E2) as S2.
    rewrite E2. rewrite E2 in C2. cbn [fst] in C2.
    pose proof (stable_trans _ _ _ S1 S2) as S12.
    destruct (IH Hks (acc ++ [RTranslation t; RValidation o]) w2
                (refs_ok_stable _ _ _ S12 Hr) (perm_shuffle_stable _ _ S12 Hp))
      as (blocks & w3 & E3 & Hb & S3).
    exists ([RTranslation t; RValidation o] :: blocks), w3. split; [|split].
    + rewrite E3, <- app_assoc. reflexivity.
    + constructor; [|exact Hb]. exists t, o. auto.
    + exact (stable_trans _ _ _ S12 S3).
Qed.

(** X17: when every reference of the array points to an object and the
    shuffle reorders, [translateAllLanguages] pushes no error entry: for each
    language of [LANGUAGE_NAMES], in order, it pushes the translation result
    and then the validation outcome of that language. *)
Theorem translateAllLanguages_consistent amenities w :
  refs_ok w amenities -> perm_shuffle w ->
  exists results w', translateAllLanguages amenities w = (Ok results, w')
    /\ exists blocks, results = concat blocks
    /\ Forall2 (fun lc b => exists t o, b = [RTranslation t; RValidation o]
                                       /\ tr_languageCode t = lc /\ lo_languageCode o = lc)
         languageCodes blocks.
Proof.
  intros Hr Hp.
  destruct (translate_languages_total amenities languageCodes languageCodes_known [] w Hr Hp)
    as (blocks & w' & E & Hb & _).
  exists (concat blocks), w'. split; [exact E|]. exists blocks. auto.
Qed.

Lemma translateAllLanguages_consistent_witness :
  (refs_ok five_world [0; 1; 2; 3; 4] /\ perm_shuffle five_world)
  /\ exists results w', translateAllLanguages [0; 1; 2; 3; 4] five_world = (Ok results, w')
    /\ exists blocks, results = concat blocks
    /\ Forall2 (fun lc b => exists t o, b = [RTranslation t; RValidation o]
                                       /\ tr_languageCode t = lc /\ lo_languageCode o = lc)
         languageCodes blocks.
Proof.
  assert (H : refs_ok five_world [0; 1; 2; 3; 4] /\ perm_shuffle five_world).
  { split.
    - intros r Hin. cbn. repeat destruct Hin as [<-|Hin]; [lia..|contradiction].
    - intros k l. reflexivity. }
  split; [exact H|]. apply translateAllLanguages_consistent; apply H.
Defined.

(* ------------------------------------------------------------------------ *)
(** ** The report of [runValidation] on consistent data *)

Lemma validateLanguageV_agrees log refs lc ln n w :
  validateLanguageV log refs lc ln n w =
  match validateLanguage refs lc ln n w with
  | (Ok r, w') => (Ok (r, match lr_totalTranslations r with 0 => log | _ => log ++ [r] end), w')
  | (Throw e, w') => (Throw e, w')
  end.
Proof.
  unfold validateLanguageV, validateLanguage, bind.
  destruct (filter_refs _ _ w) as [[l|e] w1]; [|reflexivity].
  destruct l as [|r0 l]; [reflexivity|].
  destruct (shuffle _ w1) as [[s|e] w2]; [|reflexivity].
  destruct (validate_samples _ _ _ _ w2) as [[p|e] w3]; reflexivity.
Qed.

Lemma validateLanguage_world refs lc ln n w res w' :
  validateLanguage refs lc ln n w = (res, w') ->
  w_store w' = w_store w /\ w_shuffle w' = w_shuffle w.
Proof.
  intros H. split.
  - apply list_eq. intros i. exact (keeps_validateLanguage i _ _ _ _ _ _ _ H).
  - exact (proj1 (stable_validateLanguage _ _ _ _ _ _ _ H)).
Qed.

Lemma inject_nat_nonzero (k : nat) : k <> 0 -> ~ (inject_Z (Z.of_nat k) == 0)%Q.
Proof. intros Hk E. unfold Qeq in E. cbn in E. lia. Qed.

Lemma validateLanguage_report refs lc ln n w r w' :
  validateLanguage refs lc ln n w = (Ok r, w') ->
  lr_languageCode r = lc
  /\ lr_totalTranslations r
     = length (List.filter (fun x => match w_store w !! x with
                                     | Some a => has_translation lc a | None => false end) refs)
  /\ lr_sampleSize r = length (lr_validationResults r)
  /\ (perm_shuffle w -> lr_sampleSize r = Nat.min n (lr_totalTranslations r))
  /\ (lr_sampleSize r <> 0 ->
      (lr_averageScore r * inject_Z (Z.of_nat (lr_sampleSize r))
       == sum_scores (lr_validationResults r))%Q).
Proof.
  unfold validateLanguage. intros H.
  destruct (filter_refs (has_translation lc) refs w) as [[l|e] w1] eqn:Ef;
    [|unfold bind in H; rewrite Ef in H; discriminate].
  rewrite (bind_ok _ _ _ _ _ Ef) in H.
  apply filter_refs_ok in Ef as (-> & Hl & _).
  destruct l as [|t0 ts].
  - injection H as <- _. cbn. rewrite <- Hl.
    split; [reflexivity|]. split; [reflexivity|]. split; [reflexivity|].
    split; [intros _; cbn; lia|]. intros C. contradiction.
  - unfold bind at 1, shuffle in H.
    set (sampleData := firstn _ _) in H.
    unfold bind in H.
    destruct (validate_samples lc sampleData [] zero_totals _) as [[[res tot']|e] w2] eqn:Hv;
      [|discriminate].
    injection H as <- _. cbn [lr_languageCode lr_totalTranslations lr_sampleSize
      lr_validationResults lr_averageScore fst snd].
    apply validate_samples_total in Hv as (fresh & Hres & Hlen & Hsum).
    cbn in Hres. subst res.
    split; [reflexivity|]. split; [rewrite <- Hl; reflexivity|].
    split; [exact (eq_sym Hlen)|]. split.
    + intros Hp. unfold sampleData. rewrite length_firstn.
      rewrite (Permutation_length (Hp (w_nshuffle w) (t0 :: ts))). cbn [length]. lia.
    + intros Hn. rewrite Qmult_comm, Qmult_div_r.
      * rewrite Hsum. cbn. apply Qplus_0_l.
      * apply inject_nat_nonzero. exact Hn.
Qed.

Lemma existsb_filter {A} (f : A -> bool) (l : list A) :
  existsb f l = match List.filter f l with [] => false | _ => true end.
Proof.
  induction l as [|x l IH]; [reflexivity|]. cbn. destruct (f x); [reflexivity|exact IH].
Qed.

Lemma has_some_translation_filter w amenities lc :
  has_some_translation w amenities lc
  = match List.filter (fun x => match w_store w !! x with
                                | Some a => has_translation lc a | None => false end) amenities
    with [] => false | _ => true end.
Proof. apply existsb_filter. Qed.

Lemma validate_languages_total amenities (codes : list string) :
  Forall (fun lc => is_Some (LANGUAGE_NAMES !! lc)) codes ->
  forall log w, refs_ok w amenities -> perm_shuffle w ->
  exists fresh w', validate_languages amenities codes log w = (Ok (log ++ fresh), w')
    /\ w_store w' = w_store w /\ w_shuffle w' = w_shuffle w
    /\ map lr_languageCode fresh = List.filter (has_some_translation w amenities) codes
    /\ Forall (fun r => 1 <= lr_totalTranslations r
                        /\ lr_sampleSize r = Nat.min 5 (lr_totalTranslations r)
                        /\ lr_sampleSize r = length (lr_validationResults r)
                        /\ (lr_averageScore r * inject_Z (Z.of_nat (lr_sampleSize r))
                            == sum_scores (lr_validationResults r))%Q) fresh.
Proof.
  induction codes as [|lc rest IH]; intros Hk log w Hr Hp; cbn [validate_languages].
  - exists [], w. rewrite app_nil_r. repeat split; constructor.
  - apply Forall_cons in Hk as [Hk Hks].
    unfold bind. rewrite validateLanguageV_agrees.
    destruct (validateLanguage_total amenities lc (js_display (LANGUAGE_NAMES !! lc)) 5 w Hr Hp Hk)
      as (r & w1 & E). rewrite E.
    destruct (validateLanguage_world _ _ _ _ _ _ _ E) as [Hst Hsh].
    destruct (validateLanguage_report _ _ _ _ _ _ _ E) as (Hc & Ht & Hlen & Hmin & Havg).
    specialize (Hmin Hp).
    assert (Hr1 : refs_ok w1 amenities) by (intros x Hx; rewrite Hst; exact (Hr x Hx)).
    assert (Hp1 : perm_shuffle w1) by (intros k l; rewrite Hsh; apply Hp).
    cbn [snd].
    cbn [List.filter]. rewrite has_some_translation_filter.
    destruct (lr_totalTranslations r) as [|k] eqn:Et.
    + destruct (IH Hks log w1 Hr1 Hp1) as (fresh & w2 & E2 & Hst2 & Hsh2 & Hm & Hf).
      exists fresh, w2. split; [exact E2|]. split; [congruence|]. split; [congruence|].
      split; [|exact Hf].
      replace (List.filter _ amenities) with (@nil nat)
        by (symmetry; apply length_zero_iff_nil; congruence).
      rewrite Hm. unfold has_some_translation. rewrite Hst. reflexivity.
    + destruct (IH Hks (log ++ [r]) w1 Hr1 Hp1) as (fresh & w2 & E2 & Hst2 & Hsh2 & Hm & Hf).
      exists (r :: fresh), w2. split; [rewrite E2, <- app_assoc; reflexivity|].
      split; [congruence|]. split; [congruence|]. split.
      * destruct (List.filter _ amenities) eqn:Ef; [cbn in Ht; discriminate|].
        cbn [map]. rewrite Hc, Hm. unfold has_some_translation. rewrite Hst. reflexivity.
      * constructor; [|exact Hf]. rewrite Et. split; [lia|]. split; [exact Hmin|]. split; [exact Hlen|].
        apply Havg. rewrite Hmin. lia.
Qed.

Lemma sum_scores_app (l1 l2 : list ValidationRecord) :
  (sum_scores (l1 ++ l2) == sum_scores l1 + sum_scores l2)%Q.
Proof.
  induction l1 as [|v l1 IH]; unfold sum_scores in *; cbn [app fold_right].
  - ring.
  - rewrite IH. ring.
Qed.

Lemma weighted_sum_scores (log : list LanguageReport) :
  Forall (fun r => (lr_averageScore r * inject_Z (Z.of_nat (lr_sampleSize r))
                    == sum_scores (lr_validationResults r))%Q) log ->
  (weighted_sum log == sum_scores (concat (map lr_validationResults log)))%Q.
Proof.
  induction log as [|r log IH]; intros H; [reflexivity|].
  apply Forall_cons in H as [H1 H2].
  unfold weighted_sum; cbn [fold_right map concat]. fold (weighted_sum log).
  rewrite sum_scores_app, H1, IH by exact H2. reflexivity.
Qed.

Lemma sample_sizes_sum (log : list LanguageReport) :
  Forall (fun r => lr_sampleSize r = length (lr_validationResults r)) log ->
  list_sum (map lr_sampleSize log) = length (concat (map lr_validationResults log)).
Proof.
  induction log as [|r log IH]; intros H; [reflexivity|].
  apply Forall_cons in H as [H1 H2].
  cbn [map concat]. rewrite length_app, <- IH by exact H2. cbn. unfold list_sum. lia.
Qed.

(** X18: when every reference of the array points to an object and the
    shuffle reorders, [runValidation] (on a fresh validator, as [main] runs
    it) reaches its report: the records are left unchanged; the report
    lists, in the order of [LANGUAGE_NAMES], exactly the languages some
    record has a non-blank translation for, each with [min(5, translated)]
    sampled records; the number of validations is the number of sampled
    records, and the overall score is the mean of their scores, or NaN when
    no language has a translation. *)
Theorem runValidation_consistent amenities w :
  refs_ok w amenities -> perm_shuffle w ->
  exists data w', runValidation amenities [] w = (Ok (Some data), w')
    /\ w_store w' = w_store w
    /\ map lr_languageCode (rd_languageResults data)
       = List.filter (has_some_translation w amenities) languageCodes
    /\ Forall (fun r => 1 <= lr_totalTranslations r
                        /\ lr_sampleSize r = Nat.min 5 (lr_totalTranslations r)
                        /\ lr_sampleSize r = length (lr_validationResults r))
         (rd_languageResults data)
    /\ rd_totalValidations data
       = length (concat (map lr_validationResults (rd_languageResults data)))
    /\ (rd_languageResults data = [] -> rd_overallScore data = NaN)
    /\ (rd_languageResults data <> [] ->
        exists q, rd_overallScore data = Num q
          /\ (q == sum_scores (concat (map lr_validationResults (rd_languageResults data)))
                   / inject_Z (Z.of_nat (rd_totalValidations data)))%Q).
Proof.
  intros Hr Hp. unfold runValidation.
  destruct (validate_languages_total amenities languageCodes languageCodes_known [] w Hr Hp)
    as (log & w' & E & Hst & _ & Hm & Hf).
  rewrite E. cbn [app].
  exists (generateEnhancedValidationReport log), w'. split; [reflexivity|].
  split; [exact Hst|].
  unfold generateEnhancedValidationReport.
  pose proof (report_loop_spec log 0 0 (mkQualityDistribution 0 0 0 0)) as H.
  destruct (report_loop _ _ _ _) as [[s t] d].
  destruct H as (Hs & Ht & _). cbn [rd_languageResults rd_totalValidations rd_overallScore].
  rewrite Qplus_0_l in Hs. cbn in Ht.
  assert (Hlen : Forall (fun r => lr_sampleSize r = length (lr_validationResults r)) log).
  { eapply Forall_impl; [exact Hf|]. cbn. tauto. }
  assert (Hsum : Forall (fun r => (lr_averageScore r * inject_Z (Z.of_nat (lr_sampleSize r))
                                   == sum_scores (lr_validationResults r))%Q) log).
  { eapply Forall_impl; [exact Hf|]. cbn. tauto. }
  rewrite sample_sizes_sum in Ht by exact Hlen.
  rewrite weighted_sum_scores in Hs by exact Hsum.
  split; [exact Hm|]. split.
  { eapply Forall_impl; [exact Hf|]. cbn. tauto. }
  split; [exact Ht|]. split.
  - intros ->. cbn in Ht, Hs. subst t. unfold js_div.
    change (Qeq_bool (inject_Z (Z.of_nat 0)) 0) with true. cbv iota.
    rewrite (proj2 (Qeq_bool_iff s 0)); [reflexivity|]. rewrite Hs. reflexivity.
  - intros Hne. destruct log as [|r log]; [contradiction|].
    apply Forall_cons in Hf as [(H1 & H2 & H3 & _) _].
    assert (Ht0 : t <> 0).
    { rewrite Ht. cbn [map concat]. rewrite length_app, <- H3, H2. lia. }
    unfold js_div. destruct (Qeq_bool (inject_Z (Z.of_nat t)) 0) eqn:Eq.
    + apply Qeq_bool_iff in Eq. exfalso. exact (inject_nat_nonzero t Ht0 Eq).
    + eexists. split; [reflexivity|]. rewrite Hs. reflexivity.
Qed.

Lemma runValidation_consistent_witness :
  (refs_ok five_world [0; 1; 2; 3; 4] /\ perm_shuffle five_world)
  /\ exists data w', runValidation [0; 1; 2; 3; 4] [] five_world = (Ok (Some data), w')
    /\ w_store w' = w_store five_world
    /\ map lr_languageCode (rd_languageResults data)
       = List.filter (has_some_translation five_world [0; 1; 2; 3; 4]) languageCodes
    /\ Forall (fun r => 1 <= lr_totalTranslations r
                        /\ lr_sampleSize r = Nat.min 5 (lr_totalTranslations r)
                        /\ lr_sampleSize r = length (lr_validationResults r))
         (rd_languageResults data)
    /\ rd_totalValidations data
       = length (concat (map lr_validationResults (rd_languageResults data)))
    /\ (rd_languageResults data = [] -> rd_overallScore data = NaN)
    /\ (rd_languageResults data <> [] ->
        exists q, rd_overallScore data = Num q
          /\ (q == sum_scores (concat (map lr_validationResults (rd_languageResults data)))
                   / inject_Z (Z.of_nat (rd_totalValidations data)))%Q).
Proof.
  assert (H : refs_ok five_world [0; 1; 2; 3; 4] /\ perm_shuffle five_world).
  { split.
    - intros r Hin. cbn. repeat destruct Hin as [<-|Hin]; [lia..|contradiction].
    - intros k l. reflexivity. }
  split; [exact H|]. apply runValidation_consistent; apply H.
Defined.

(* ------------------------------------------------------------------------ *)
(** ** The CSV translator *)

Lemma Basic_fit_length (ts : list string) (n : nat) : length (Basic.fit ts n) = n.
Proof.
  unfold Basic.fit. destruct (n <=? length ts) eqn:E.
  - apply Nat.leb_le in E. rewrite length_firstn. lia.
  - apply Nat.leb_gt in E. rewrite length_app, repeat_length. lia.
Qed.

(** X19: the CSV translator's [translateBatch] never throws and always
    returns one string per phrase; it sends no prompt for an empty batch
    and exactly one prompt otherwise (there is no retry), and when that
    call fails or its answer has no content it returns one empty string per
    phrase. The records are untouched. *)
Theorem Basic_translateBatch_result eng lang ln w :
  exists ts w', Basic.translateBatch eng lang ln w = (Ok ts, w')
    /\ length ts = length eng
    /\ w_store w' = w_store w
    /\ (eng = [] -> w' = w)
    /\ (eng <> [] ->
        w_prompts w' = w_prompts w ++ [Basic.createTranslationPrompt eng lang ln]
        /\ w_script w' = tl (w_script w)
        /\ (forallb no_content (firstn 1 (w_script w)) = true ->
            ts = List.repeat EmptyString (length eng))).
Proof.
  unfold Basic.translateBatch. destruct eng as [|e eng'].
  - exists [], w. split; [reflexivity|]. split; [reflexivity|]. split; [reflexivity|].
    split; [reflexivity|]. intros C. contradiction.
  - set (p := Basic.createTranslationPrompt (e :: eng') lang ln).
    unfold bind, api_call.
    destruct (w_script w) as [|o rest] eqn:Hs.
    + eexists; eexists. split; [reflexivity|]. cbn [length]. rewrite repeat_length.
      split; [reflexivity|]. split; [reflexivity|]. split; [discriminate|].
      intros _. split; [reflexivity|]. split; [reflexivity|]. intros _. reflexivity.
    + destruct o as [m|[c|]]; eexists; eexists; (split; [reflexivity|]);
        (split; [first [apply Basic_fit_length | apply repeat_length]|]);
        (split; [reflexivity|]); (split; [discriminate|]); intros _;
        (split; [reflexivity|]); (split; [reflexivity|]); cbn; intros H;
        first [reflexivity | discriminate].
Qed.

Lemma Basic_drop_digits_app (ds rest : list ascii) :
  forallb is_digit ds = true -> Basic.drop_digits (ds ++ rest) = Basic.drop_digits rest.
Proof.
  induction ds as [|d ds IH]; intros H; [reflexivity|].
  cbn in H. apply andb_prop in H as [H1 H2]. cbn. rewrite H1. exact (IH H2).
Qed.

Lemma Basic_drop_digits_stop (rest : list ascii) :
  match rest with c :: _ => is_digit c = false | [] => True end ->
  Basic.drop_digits rest = rest.
Proof. destruct rest as [|c rest]; [reflexivity|]. cbn. intros ->. reflexivity. Qed.

Lemma Basic_drop_ws_stop (rest : list ascii) :
  match rest with c :: _ => is_ws c = false | [] => True end -> drop_ws rest = rest.
Proof. destruct rest as [|c rest]; [reflexivity|]. cbn. intros ->. reflexivity. Qed.

Lemma Basic_clean_line_prefix (ds rest : list ascii) :
  ds <> [] -> forallb is_digit ds = true ->
  Basic.clean_line (string_of_list_ascii (ds ++ rest))
  = string_of_list_ascii (Basic.strip_number (ds ++ rest)).
Proof.
  intros Hne Hd. unfold Basic.clean_line. rewrite list_ascii_of_string_of_list_ascii.
  destruct ds as [|d ds]; [contradiction|]. cbn in Hd. apply andb_prop in Hd as [Hd _].
  cbn [app]. rewrite Hd. reflexivity.
Qed.

(** X20: the clean-up of the CSV translator removes a leading number from
    every answer line: the list marker "k. " of a numbered line, but also a
    number that begins the translation itself, so that an answer line
    "24-hour reception" is kept as "-hour reception". *)
Theorem Basic_clean_line_strips_number (k : nat) (t : string) :
  (match list_ascii_of_string t with c :: _ => is_ws c = false | [] => True end ->
   Basic.clean_line (nat_to_string k ++ ". " ++ t) = t)
  /\ (match list_ascii_of_string t with
      | c :: _ => is_digit c = false /\ is_ws c = false /\ c <> dot_char
      | [] => True end ->
      Basic.clean_line (nat_to_string k ++ t) = t).
Proof.
  pose proof (nat_to_string_nonempty k) as Hne.
  pose proof (string_of_uint_digits (Nat.to_uint k)) as Hd. fold (nat_to_string k) in Hd.
  split; intros Ht.
  - rewrite <- (string_of_list_ascii_of_string (nat_to_string k ++ ". " ++ t)).
    rewrite !list_ascii_of_string_app.
    rewrite (Basic_clean_line_prefix _ _ Hne Hd).
    unfold Basic.strip_number. rewrite (Basic_drop_digits_app _ _ Hd).
    change (list_ascii_of_string ". ") with [dot_char; " "%char]. cbn [app Basic.drop_digits].
    change (is_digit dot_char) with false. cbv iota.
    change ((dot_char =? dot_char)%char) with true. cbv iota. cbn [drop_ws].
    change (is_ws " "%char) with true. cbv iota.
    rewrite Basic_drop_ws_stop by exact Ht. apply string_of_list_ascii_of_string.
  - rewrite <- (string_of_list_ascii_of_string (nat_to_string k ++ t)).
    rewrite !list_ascii_of_string_app.
    rewrite (Basic_clean_line_prefix _ _ Hne Hd).
    unfold Basic.strip_number. rewrite (Basic_drop_digits_app _ _ Hd).
    destruct (list_ascii_of_string t) as [|c lt] eqn:Et.
    + cbn. rewrite <- (string_of_list_ascii_of_string t), Et. reflexivity.
    + destruct Ht as (H1 & H2 & H3). cbn. rewrite H1.
      destruct (Ascii.eqb c dot_char) eqn:Ed; [apply Ascii.eqb_eq in Ed; contradiction|].
      cbn [drop_ws]. rewrite H2. rewrite <- (string_of_list_ascii_of_string t), Et. reflexivity.
Qed.

Lemma Basic_translateBatch_ok eng lang ln w :
  exists ts w', Basic.translateBatch eng lang ln w = (Ok ts, w')
    /\ length ts = length eng /\ w_store w' = w_store w
    /\ length (w_prompts w') = length (w_prompts w) + (match eng with [] => 0 | _ => 1 end).
Proof.
  unfold Basic.translateBatch. destruct eng as [|e eng'].
  - exists [], w. rewrite Nat.add_0_r. auto.
  - unfold bind, api_call.
    destruct (w_script w) as [|o rest];
      [|destruct o as [m|[c|]]]; eexists; eexists; (split; [reflexivity|]);
      (split; [first [apply Basic_fit_length | apply repeat_length]|]);
      (split; [reflexivity|]); cbn; rewrite length_app; reflexivity.
Qed.

Lemma Basic_translate_batches_ok lang ln (bs : list (list (option string))) :
  Forall (fun b => b <> []) bs ->
  forall acc w, exists all w', Basic.translate_batches lang ln bs acc w = (Ok all, w')
    /\ length all = length acc + length (concat bs)
    /\ w_store w' = w_store w
    /\ length (w_prompts w') = length (w_prompts w) + length bs.
Proof.
  induction bs as [|b bs IH]; intros Hne acc w; cbn [Basic.translate_batches].
  - exists acc, w. cbn. rewrite !Nat.add_0_r. auto.
  - apply Forall_cons in Hne as [Hb Hbs].
    destruct (Basic_translateBatch_ok b lang ln w) as (ts & w1 & E1 & Hl1 & Hs1 & Hp1).
    rewrite (bind_ok _ _ _ _ _ E1).
    destruct (IH Hbs (acc ++ ts) w1) as (all & w2 & E2 & Hl2 & Hs2 & Hp2).
    exists all, w2. split; [exact E2|].
    destruct b as [|x b]; [contradiction|].
    rewrite Hl2, length_app, Hl1. cbn [concat]. rewrite length_app.
    split; [lia|]. split; [congruence|]. rewrite Hp2, Hp1. cbn [length]. lia.
Qed.

Lemma Basic_batches_fuel_spec {A} (n fuel : nat) (l : list A) :
  0 < n -> length l <= fuel ->
  concat (Basic.batches_fuel fuel n l) = l
  /\ Forall (fun b => b <> []) (Basic.batches_fuel fuel n l)
  /\ length (Basic.batches_fuel fuel n l) = (length l + n - 1) / n.
Proof.
  intros Hn. revert l. induction fuel as [|f IH]; intros l Hl.
  - destruct l; [|cbn in Hl; lia]. cbn. split; [reflexivity|]. split; [constructor|].
    rewrite Nat.div_small by lia. reflexivity.
  - destruct l as [|x l'].
    + cbn. split; [reflexivity|]. split; [constructor|]. rewrite Nat.div_small by lia.
      reflexivity.
    + cbn [Basic.batches_fuel].
      destruct (IH (skipn n (x :: l'))) as (Hc & Hf & Hlen).
      { rewrite length_skipn. cbn in Hl |- *. lia. }
      split; [|split].
      * cbn [concat]. rewrite Hc. apply firstn_skipn.
      * constructor; [|exact Hf]. destruct n; [lia|]. discriminate.
      * cbn [length]. rewrite Hlen, length_skipn. cbn [length].
        replace (S (length l') + n - 1) with (1 * n + length l') by lia.
        rewrite Nat.div_add_l by lia.
        destruct (Nat.le_gt_cases n (S (length l'))) as [Hle|Hgt].
        -- f_equal. f_equal. lia.
        -- replace (S (length l') - n) with 0 by lia. cbn.
           rewrite (Nat.div_small (length l')) by lia.
           rewrite Nat.div_small by lia. reflexivity.
Qed.

Lemma Basic_row_get_set_same k v (row : Basic.Row) :
  Basic.row_get (Basic.row_set k v row) k = Some v.
Proof.
  unfold Basic.row_get, Basic.row_set.
  destruct (existsb _ row) eqn:E.
  - induction row as [|p row IH]; [discriminate|]. cbn in E |- *.
    destruct (String.eqb (fst p) k) eqn:Ep; cbn.
    + rewrite String.eqb_refl. reflexivity.
    + rewrite Ep. exact (IH E).
  - induction row as [|p row IH]; cbn.
    + rewrite String.eqb_refl. reflexivity.
    + cbn in E. apply orb_false_iff in E as [E1 E2]. rewrite E1. exact (IH E2).
Qed.

Lemma Basic_row_get_set_other k k' v (row : Basic.Row) :
  k' <> k -> Basic.row_get (Basic.row_set k v row) k' = Basic.row_get row k'.
Proof.
  intros Hne. unfold Basic.row_get, Basic.row_set.
  assert (Hk : String.eqb k k' = false) by (apply String.eqb_neq; congruence).
  destruct (existsb _ row).
  - induction row as [|p row IH]; [reflexivity|]. cbn.
    destruct (String.eqb (fst p) k) eqn:Ep; cbn.
    + apply String.eqb_eq in Ep. rewrite Hk, Ep, Hk. exact IH.
    + destruct (String.eqb (fst p) k'); [reflexivity|exact IH].
  - induction row as [|p row IH]; cbn.
    + rewrite Hk. reflexivity.
    + destruct (String.eqb (fst p) k'); [reflexivity|exact IH].
Qed.

Lemma Basic_is_missing_set language t (row : Basic.Row) :
  Basic.is_missing language (Basic.row_set language t row) = String.eqb (trim t) EmptyString.
Proof.
  unfold Basic.is_missing. rewrite Basic_row_get_set_same. cbn [truthy].
  destruct (String.eqb t EmptyString) eqn:E; [|reflexivity].
  apply String.eqb_eq in E. subst t. reflexivity.
Qed.

Lemma Basic_update_rows_spec language (data : list Basic.Row) (all : list string) :
  forall idx, idx + length (List.filter (Basic.is_missing language) data) <= length all ->
  length (List.filter (Basic.is_missing language) (Basic.update_rows language data all idx))
  = length (List.filter (fun t => String.eqb (trim t) EmptyString)
              (firstn (length (List.filter (Basic.is_missing language) data)) (drop idx all)))
  /\ Forall2 (fun row row' => (Basic.is_missing language row = false -> row' = row)
                /\ forall k, k <> language -> Basic.row_get row' k = Basic.row_get row k)
       data (Basic.update_rows language data all idx).
Proof.
  induction data as [|row data IH]; intros idx Hle; cbn [Basic.update_rows List.filter].
  - split; [rewrite firstn_O; reflexivity|constructor].
  - destruct (Basic.is_missing language row) eqn:Em.
    + cbn [List.filter] in Hle. rewrite Em in Hle. cbn [length] in Hle.
      destruct (all !! idx) as [t|] eqn:Et; [|apply lookup_ge_None in Et; lia].
      destruct (IH (S idx)) as [Hc Hf]; [lia|].
      split.
      * cbn [List.filter]. rewrite Basic_is_missing_set.
        rewrite (drop_S _ _ _ Et). cbn [length]. rewrite firstn_cons. cbn [List.filter].
        replace (String.eqb (trim (if String.eqb t EmptyString then EmptyString else t))
                   EmptyString)
          with (String.eqb (trim t) EmptyString).
        -- destruct (String.eqb (trim t) EmptyString); cbn [length]; rewrite Hc; reflexivity.
        -- destruct (String.eqb t EmptyString) eqn:E; [|reflexivity].
           apply String.eqb_eq in E. subst t. reflexivity.
      * constructor; [|exact Hf]. split; [intros H; congruence|].
        intros k Hk. apply Basic_row_get_set_other. exact Hk.
    + cbn [List.filter] in Hle. rewrite Em in Hle.
      destruct (IH idx Hle) as [Hc Hf]. split.
      * cbn [List.filter]. rewrite Em. exact Hc.
      * constructor; [|exact Hf]. split; [reflexivity|]. reflexivity.
Qed.

Lemma filter_length_split {A} (f : A -> bool) (l : list A) :
  length (List.filter f l) + length (List.filter (fun x => negb (f x)) l) = length l.
Proof.
  induction l as [|x l IH]; [reflexivity|]. cbn. destruct (f x); cbn; lia.
Qed.

Lemma Forall2_diag_rows language (data : list Basic.Row) :
  Forall2 (fun row row' => (Basic.is_missing language row = false -> row' = row)
             /\ forall k, k <> language -> Basic.row_get row' k = Basic.row_get row k)
    data data.
Proof. induction data; constructor; auto. Qed.

Lemma Basic_translateLanguage_spec data language w :
  exists data' r w', Basic.translateLanguage data language w = (Ok (data', r), w')
    /\ Basic.res_language r = language
    /\ Basic.res_total r = length (Basic.findMissingTranslations data language)
    /\ Basic.res_translated r <= Basic.res_total r
    /\ length (Basic.findMissingTranslations data' language)
       = Basic.res_total r - Basic.res_translated r
    /\ Forall2 (fun row row' => (Basic.is_missing language row = false -> row' = row)
                  /\ forall k, k <> language -> Basic.row_get row' k = Basic.row_get row k)
         data data'
    /\ w_store w' = w_store w
    /\ length (w_prompts w')
       = length (w_prompts w) + (Basic.res_total r + Basic.BATCH_SIZE - 1) / Basic.BATCH_SIZE.
Proof.
  unfold Basic.translateLanguage.
  set (ln := if truthy _ then _ else language).
  set (missing := Basic.findMissingTranslations data language).
  destruct (length missing =? 0) eqn:E0.
  - apply Nat.eqb_eq in E0. exists data, (Basic.mkLanguageResult language 0 0), w.
    cbn [Basic.res_language Basic.res_total Basic.res_translated].
    split; [reflexivity|]. split; [reflexivity|]. split; [exact (eq_sym E0)|]. split; [lia|].
    split; [exact E0|]. split; [apply Forall2_diag_rows|]. split; [reflexivity|].
    unfold Basic.BATCH_SIZE. cbn -[length]. lia.
  - apply Nat.eqb_neq in E0.
    set (englishTexts := map (fun row => Basic.row_get row "en") missing).
    destruct (Basic_batches_fuel_spec Basic.BATCH_SIZE (length englishTexts) englishTexts)
      as (Hc & Hf & Hn); [unfold Basic.BATCH_SIZE; lia|lia|].
    destruct (Basic_translate_batches_ok language ln (Basic.batches Basic.BATCH_SIZE englishTexts)
                Hf [] w) as (all & w' & E & Hl & Hs & Hp).
    unfold Basic.batches in E, Hl, Hp. rewrite Hc in Hl.
    cbn [length] in Hl. unfold englishTexts in Hl. rewrite length_map in Hl.
    rewrite (bind_ok _ _ _ _ _ E).
    destruct (Basic_update_rows_spec language data all 0) as [Hcount Hrows].
    { cbn. fold (Basic.findMissingTranslations data language). fold missing. lia. }
    eexists; eexists; exists w'. split; [reflexivity|].
    cbn [Basic.res_language Basic.res_total Basic.res_translated].
    pose proof (filter_length_split (fun t => String.eqb (trim t) EmptyString) all) as Hsplit.
    split; [reflexivity|]. split; [reflexivity|].
    split; [lia|].
    split.
    + unfold Basic.findMissingTranslations at 1. rewrite Hcount.
      fold (Basic.findMissingTranslations data language). fold missing.
      rewrite drop_0, firstn_all2 by lia. lia.
    + split; [exact Hrows|]. split; [exact Hs|].
      rewrite Hp, Hn. unfold englishTexts. rewrite length_map. reflexivity.
Qed.

(** X21: the CSV translator's [translateLanguage] never throws; its total is
    the number of rows whose cell for the language is absent or blank, and
    it counts as translated only the non-blank translations it wrote, so
    that afterwards exactly [total - translated] rows are still missing. It
    writes only the language cell of the missing rows, and sends one prompt
    per batch of at most [BATCH_SIZE] rows. *)
Theorem Basic_translateLanguage_counts data language w :
  exists data' r w', Basic.translateLanguage data language w = (Ok (data', r), w')
    /\ Basic.res_language r = language
    /\ Basic.res_total r = length (Basic.findMissingTranslations data language)
    /\ Basic.res_translated r <= Basic.res_total r
    /\ length (Basic.findMissingTranslations data' language)
       = Basic.res_total r - Basic.res_translated r
    /\ Forall2 (fun row row' => (Basic.is_missing language row = false -> row' = row)
                  /\ forall k, k <> language -> Basic.row_get row' k = Basic.row_get row k)
         data data'
    /\ w_store w' = w_store w
    /\ length (w_prompts w')
       = length (w_prompts w) + (Basic.res_total r + Basic.BATCH_SIZE - 1) / Basic.BATCH_SIZE.
Proof. exact (Basic_translateLanguage_spec data language w). Qed.

Lemma Basic_rows_column_kept language k (data data' : list Basic.Row) :
  k <> language ->
  Forall2 (fun row row' => (Basic.is_missing language row = false -> row' = row)
             /\ forall k, k <> language -> Basic.row_get row' k = Basic.row_get row k)
    data data' ->
  map (fun row => Basic.row_get row k) data' = map (fun row => Basic.row_get row k) data.
Proof.
  intros Hk H. induction H as [|row row' data data' [_ Hr] _ IH]; [reflexivity|].
  cbn. rewrite (Hr k Hk), IH. reflexivity.
Qed.

Lemma Basic_translate_languages_spec (languages : list string) :
  forall data acc w,
  exists data' rs w', Basic.translate_languages data languages acc w = (Ok (data', acc ++ rs), w')
    /\ map Basic.res_language rs = languages
    /\ Forall (fun r => Basic.res_translated r <= Basic.res_total r) rs
    /\ (forall k, ~ In k languages ->
        map (fun row => Basic.row_get row k) data' = map (fun row => Basic.row_get row k) data)
    /\ length data' = length data
    /\ w_store w' = w_store w.
Proof.
  induction languages as [|l rest IH]; intros data acc w; cbn [Basic.translate_languages].
  - exists data, [], w. rewrite app_nil_r. split; [reflexivity|].
    split; [reflexivity|]. split; [constructor|]. split; [reflexivity|]. auto.
  - destruct (Basic_translateLanguage_spec data l w)
      as (d1 & r & w1 & E1 & Hl & _ & Hle & _ & Hrows & Hs1 & _).
    rewrite (bind_ok _ _ _ _ _ E1). cbn [fst snd].
    destruct (IH d1 (acc ++ [r]) w1) as (d2 & rs & w2 & E2 & Hm & Hf & Hk & Hlen & Hs2).
    exists d2, (r :: rs), w2. split; [rewrite E2, <- app_assoc; reflexivity|].
    split; [cbn; rewrite Hl, Hm; reflexivity|].
    split; [constructor; assumption|].
    split; [|split].
    + intros k Hnin. rewrite Hk by (intros Hin; apply Hnin; right; exact Hin).
      apply (Basic_rows_column_kept l); [intros ->; apply Hnin; left; reflexivity|exact Hrows].
    + rewrite Hlen. exact (eq_sym (Forall2_length _ _ _ Hrows)).
    + congruence.
Qed.

Lemma Basic_identifyLanguages_not_id_en (data : list Basic.Row) :
  ~ In "id"%string (Basic.identifyLanguages data) /\ ~ In "en"%string (Basic.identifyLanguages data).
Proof.
  unfold Basic.identifyLanguages. destruct data as [|row data]; [split; intros []|].
  split; intros Hin; apply filter_In in Hin as [_ H]; cbn in H; discriminate.
Qed.

(** X22: the CSV translator's [translateAllLanguages] never throws and
    returns one result per language column of the first row (its columns
    other than [id] and [en], in order), each with at most as many
    translated rows as missing ones; it keeps the number of rows and never
    writes a column that is not one of those languages, in particular
    neither [id] nor [en]. *)
Theorem Basic_translateAllLanguages_result data w :
  exists data' results w', Basic.translateAllLanguages data w = (Ok (data', results), w')
    /\ map Basic.res_language results = Basic.identifyLanguages data
    /\ Forall (fun r => Basic.res_translated r <= Basic.res_total r) results
    /\ length data' = length data
    /\ (forall k, ~ In k (Basic.identifyLanguages data) ->
        map (fun row => Basic.row_get row k) data' = map (fun row => Basic.row_get row k) data)
    /\ map (fun row => (Basic.row_get row "id", Basic.row_get row "en")) data'
       = map (fun row => (Basic.row_get row "id", Basic.row_get row "en")) data.
Proof.
  unfold Basic.translateAllLanguages.
  destruct (Basic_translate_languages_spec (Basic.identifyLanguages data) data [] w)
    as (data' & rs & w' & E & Hm & Hf & Hk & Hlen & _).
  exists data', rs, w'. split; [exact E|]. split; [exact Hm|]. split; [exact Hf|].
  split; [exact Hlen|]. split; [exact Hk|].
  destruct (Basic_identifyLanguages_not_id_en data) as [Hid Hen].
  pose proof (Hk _ Hid) as E1. pose proof (Hk _ Hen) as E2.
  clear -E1 E2. revert data E1 E2. induction data' as [|r d IH]; intros [|r' d'] E1 E2;
    cbn in E1, E2 |- *; try discriminate; [reflexivity|].
  injection E1 as -> E1. injection E2 as -> E2. rewrite (IH d' E1 E2). reflexivity.
Qed.
